(** * uptomssql: bulk upload of JSON/CSV files into SQL Server tables

    A shallow embedding of [main.go] (package [main]).  The repository
    holds two variants of the program: the one that wraps fallible calls in
    [must] (panic on error) and the one that reports them through
    [handleError] (print, then [os.Exit] with a documented code).  Both share
    the file-name parser, the CSV reader loop, the per-row projection and the
    statement builder; the embedding is parameterised by the variant where
    they differ.

    Go values are modelled as follows: [string] is a byte string
    ([String.string]); [map[string]T] is [gmap string T]; [any] is the
    inductive [any] of the dynamic types that can reach the program; a
    [range] over a map visits its entries in an order chosen by the runtime,
    which the embedding takes as an explicit argument constrained to be a
    permutation of the entries. *)

From Stdlib Require Import ZArith String Ascii List Lia DecimalString.
From Stdlib Require Import Floats.SpecFloat.
From stdpp Require Import base option list gmap strings.

(** ** Panics and early termination *)

(** Go's [error] values are only printed, or compared with [nil] and with
    [io.EOF]: the sentinel is kept apart, every other error is its message. *)
Inductive error :=
| EOF
| errorString (msg : string).

Definition Error (err : error) : string :=
  match err with
  | EOF => "EOF"
  | errorString msg => msg
  end.

Inductive PanicValue :=
| IndexOutOfRange (index len : nat)   (* runtime error: index out of range [index] with length len *)
| PanicString (msg : string)          (* panic("...") *)
| PanicError (err : error).           (* panic(err) *)

(** The result of a pure Go expression that may panic. *)
Inductive Go (A : Type) :=
| Return (a : A)
| Panics (p : PanicValue).
Arguments Return {A} a.
Arguments Panics {A} p.

#[global] Instance Go_bind : MBind Go := fun A B k x =>
  match x with
  | Return a => k a
  | Panics p => Panics p
  end.

(** [s[i]] on a slice: a run-time bounds check. *)
Definition elemAt {A} (s : list A) (i : nat) : Go A :=
  match s !! i with
  | Some a => Return a
  | None => Panics (IndexOutOfRange i (List.length s))
  end.

(** ** The parts of Go's standard library the program relies on

    These are not code of the repository; they follow the documented
    behaviour of packages [strings], [strconv], [slices] and [fmt].  The
    program only splits at the one-byte separators "_" and "."; the
    separator is a byte here. *)

Module strings.

(** [strings.Contains(s, sep)] for a one-byte [sep]; it serves to say
    where a separator occurs. *)
Fixpoint Contains (s : string) (sep : ascii) : bool :=
  match s with
  | "" => false
  | String c r => if Ascii.eqb c sep then true else Contains r sep
  end.

(** [strings.Split(s, sep)] for a one-byte [sep]: all the substrings
    between separators; never empty. *)
Fixpoint Split (s : string) (sep : ascii) : list string :=
  match s with
  | "" => [""]
  | String c r =>
      if Ascii.eqb c sep then "" :: Split r sep
      else match Split r sep with
           | h :: t => String c h :: t
           | [] => [String c ""]
           end
  end.

(** [strings.SplitN(s, sep, n)] for a one-byte [sep]: at most [n]
    substrings, the last one the unsplit remainder; [n = 0] gives [nil]. *)
Fixpoint SplitN_pos (s : string) (sep : ascii) (n : nat) : list string :=
  match s with
  | "" => [""]
  | String c r =>
      match n with
      | 0 | 1 => [s]
      | S n' =>
          if Ascii.eqb c sep then "" :: SplitN_pos r sep n'
          else match SplitN_pos r sep n with
               | h :: t => String c h :: t
               | [] => [String c ""]
               end
      end
  end.

Definition SplitN (s : string) (sep : ascii) (n : Z) : list string :=
  if (n =? 0)%Z then []
  else if (n <? 0)%Z then Split s sep
  else SplitN_pos s sep (Z.to_nat n).

(** [strings.Join(elems, sep)]. *)
Definition Join (elems : list string) (sep : string) : string :=
  String.concat sep elems.

End strings.

Module slices.

(** [slices.Contains(s, v)] on a [[]string]. *)
Definition Contains (s : list string) (v : string) : bool :=
  existsb (String.eqb v) s.

End slices.

Module strconv.

(** [strconv.IntSize] on the 64-bit platforms the tool is built for. *)
Definition IntSize : Z := 64.
Definition maxInt : Z := 2 ^ (IntSize - 1) - 1.
Definition minInt : Z := - 2 ^ (IntSize - 1).

(** [ch -= '0'; if ch > 9 { syntax error }] *)
Definition digit (c : ascii) : option Z :=
  let n := Z.of_N (N_of_ascii c) in
  if ((48 <=? n) && (n <=? 57))%Z then Some (n - 48)%Z else None.

(** The digit loop: [n = n*10 + ch]. *)
Fixpoint digits (s : string) (acc : Z) : option Z :=
  match s with
  | "" => Some acc
  | String c r =>
      match digit c with
      | Some d => digits r (acc * 10 + d)%Z
      | None => None
      end
  end.

(** [strconv.Atoi(s)]: an optional sign, then one or more decimal digits,
    the value within the range of [int]; [None] stands for a non-nil
    [*NumError] (syntax or range), which the caller only tests against
    [nil]. *)
Definition Atoi (s : string) : option Z :=
  match s with
  | "" => None
  | String c r =>
      let neg := Ascii.eqb c "-" in
      let body := if Ascii.eqb c "-" || Ascii.eqb c "+" then r else s in
      match body with
      | "" => None
      | _ =>
          match digits body 0 with
          | None => None
          | Some un =>
              let n := if neg then (- un)%Z else un in
              if ((minInt <=? n) && (n <=? maxInt))%Z then Some n else None
          end
      end
  end.

End strconv.

Module fmt.

(** The verb [%d] applied to a non-negative [int]: its decimal digits. *)
Definition d (n : nat) : string := NilZero.string_of_uint (Nat.to_uint n).

End fmt.

(** ** Data model *)

(** [sql.NullString] *)
Record NullString := {
  String_ : string;
  Valid : bool;
}.

Record ColumnSchema := {
  ColumnName : string;
  IsNullable : string;
  ColumnDefault : NullString;
  DataType : string;
}.

Inductive Format := Json | Csv.

#[global] Instance Format_eq_dec : EqDecision Format.
Proof. solve_decision. Defined.

(** The dynamic types an [any] of a record can hold: [encoding/json]
    decodes into [nil], [bool], [float64], [string], [[]any] and
    [map[string]any]; the CSV loop stores [int] and [string]. *)
#[warnings="-register-all"]
Inductive any :=
| AnyNil
| AnyBool (b : bool)
| AnyInt (n : Z)
| AnyFloat64 (f : spec_float)
| AnyString (s : string)
| AnySlice (elems : list any)
| AnyMap (entries : list (string * any)).

(** [val == "NULL"]: an interface value equals a string constant exactly
    when its dynamic type is [string] and the strings are equal. *)
Definition any_eq_string (val : any) (s : string) : bool :=
  match val with
  | AnyString v => String.eqb v s
  | _ => false
  end.

(** A row of input: [map[string]any]. *)
Abbreviation Record_ := (gmap string any).
Abbreviation Schema := (gmap string ColumnSchema).

(** ** File names *)

Definition getFileFormat (strFormat : string) : Go Format :=
  if String.eqb strFormat "json" then Return Json
  else if String.eqb strFormat "csv" then Return Csv
  else Panics (PanicString "incorrect format").

(** The function literal applied to [fileName] in [main]. *)
Definition parseFileName (fn : string) : Go (string * Format) :=
  rest ← elemAt (strings.SplitN fn "_" 2) 1;
  let nameAndExt := strings.Split rest "." in
  if (2 <? List.length nameAndExt)%nat then
    let li := List.length nameAndExt - 1 in
    ext ← (e ← elemAt nameAndExt li; getFileFormat e);
    Return (strings.Join (take li nameAndExt) "", ext)
  else
    name ← elemAt nameAndExt 0;
    ext ← (e ← elemAt nameAndExt 1; getFileFormat e);
    Return (name, ext).

(** ** Projection of one record onto the table's columns *)

(** [colSchema.IsNullable != "YES" && !colSchema.ColumnDefault.Valid] *)
Definition required (colSchema : ColumnSchema) : bool :=
  negb (String.eqb (IsNullable colSchema) "YES") && negb (Valid (ColumnDefault colSchema)).

(** [colSchema.DataType == "timestamp" || slices.Contains(computeColumns, col)] *)
Definition serverManaged (computeColumns : list string) (col : string)
    (colSchema : ColumnSchema) : bool :=
  String.eqb (DataType colSchema) "timestamp" || slices.Contains computeColumns col.

(** One iteration of [for col, colSchema := range schema]: what it does to
    [columns] and [values], or the origin named by its [log.Fatalf]. *)
Inductive Step :=
| Continue
| Append (column : string) (val : any)
| LogFatalf (origin : Format).

Definition loopBody (computeColumns : list string) (ext : Format) (records : Record_)
    (col : string) (colSchema : ColumnSchema) : Step :=
  match records !! col with
  | Some val =>
      if serverManaged computeColumns col colSchema then Continue
      else if bool_decide (ext = Csv) && any_eq_string val "NULL" then
        if required colSchema then LogFatalf Csv else Continue
      else Append ("[" +:+ col +:+ "]") val
  | None =>
      if required colSchema then LogFatalf Json else Continue
  end.

(** The outcome of the loop over the schema: the two slices, or the call of
    [log.Fatalf("required field %s missing from csv"/"... json", col)]. *)
Inductive Projection :=
| Projected (columns : list string) (values : list any)
| Fatal (col : string) (origin : Format).

(** The loop, given the entries in the order the runtime visits them. *)
Fixpoint projectLoop (computeColumns : list string) (ext : Format) (records : Record_)
    (entries : list (string * ColumnSchema))
    (columns : list string) (values : list any) : Projection :=
  match entries with
  | [] => Projected columns values
  | (col, colSchema) :: rest =>
      match loopBody computeColumns ext records col colSchema with
      | Continue => projectLoop computeColumns ext records rest columns values
      | Append column val =>
          projectLoop computeColumns ext records rest (columns ++ [column]) (values ++ [val])
      | LogFatalf origin => Fatal col origin
      end
  end.

(** The loop started from [var columns []string; var values []any]. *)
Definition project (computeColumns : list string) (ext : Format) (records : Record_)
    (entries : list (string * ColumnSchema)) : Projection :=
  projectLoop computeColumns ext records entries [] [].

Definition requiredFieldMessage (col : string) (origin : Format) : string :=
  "required field " +:+ col +:+ " missing from " +:+
  match origin with Json => "json" | Csv => "csv" end.

(** ** The statement *)

(** [for i := range columns { if i > 0 { placeholders += ", " }; placeholders += fmt.Sprintf("@p%d", i+1) }] *)
Definition placeholdersLoop (columns : list string) : string :=
  foldl (fun placeholders i =>
           (if (0 <? i)%nat then placeholders +:+ ", " else placeholders)
           +:+ ("@p" +:+ fmt.d (i + 1)))
        "" (seq 0 (List.length columns)).

(** [for i, col := range columns { if i > 0 { columnsStr += ", " }; columnsStr += col }] *)
Definition columnsStrLoop (columns : list string) : string :=
  foldl (fun columnsStr '(i, col) =>
           (if (0 <? i)%nat then columnsStr +:+ ", " else columnsStr) +:+ col)
        "" (imap pair columns).

(** [fmt.Sprintf("INSERT INTO %s (%s) VALUES (%s);", tableName, columnsStr, placeholders)] *)
Definition insertQuery (tableName : string) (columns : list string) : string :=
  "INSERT INTO " +:+ tableName +:+ " (" +:+ columnsStrLoop columns +:+
  ") VALUES (" +:+ placeholdersLoop columns +:+ ");".

Definition identityON (tableName : string) : string :=
  "SET IDENTITY_INSERT " +:+ tableName +:+ " ON;".

Definition identityOFF (tableName : string) : string :=
  "SET IDENTITY_INSERT " +:+ tableName +:+ " OFF;".

(** The value of [query] passed to [db.Exec]. *)
Definition buildQuery (tableName : string) (isTableIdentity : bool)
    (columns : list string) : string :=
  let query := insertQuery tableName columns in
  if isTableIdentity then identityON tableName +:+ query +:+ identityOFF tableName
  else query.

(** ** The CSV reader loop *)

(** A [csv.Reader] over an open file is the sequence of results its
    successive [Read] calls return; once exhausted, [Read] returns
    [io.EOF]. *)
Definition Reader := list (list string + error).

Definition Read (r : Reader) : (list string + error) * Reader :=
  match r with
  | [] => (inr EOF, [])
  | res :: r' => (res, r')
  end.

(** [if num, err := strconv.Atoi(cell); err == nil { num } else { cell }] *)
Definition cellValue (cell : string) : any :=
  match strconv.Atoi cell with
  | Some num => AnyInt num
  | None => AnyString cell
  end.

(** [for i, header := range headers { ... row[header] = ... record[i] ... }],
    from position [i] on. *)
Fixpoint csvRow (headers : list string) (record : list string) (i : nat)
    (row : Record_) : Go Record_ :=
  match headers with
  | [] => Return row
  | header :: headers' =>
      cell ← elemAt record i;
      csvRow headers' record (S i) (<[header := cellValue cell]> row)
  end.

(** [for { record, err := r.Read(); if err == io.EOF { break }; if err != nil { panic(err) }; ... }] *)
Fixpoint csvLoop (headers : list string) (r : Reader)
    (allRecords : list Record_) : Go (list Record_) :=
  match r with
  | [] => Return allRecords
  | inr EOF :: _ => Return allRecords
  | inr err :: _ => Panics (PanicError err)
  | inl record :: r' =>
      row ← csvRow headers record 0 ∅;
      csvLoop headers r' (allRecords ++ [row])
  end.

(** ** The run: [main] *)

(** What a run leaves behind: the lines written by [fmt.Println], the
    messages logged by [log.Fatalf] (without the time stamp), the statements
    handed to [db.Exec] with their arguments, and how many times a [range]
    over a schema has been started. *)
Record World := {
  stdout : list string;
  stderr : list string;
  executed : list (string * list any);
  ranges : nat;
}.

Definition initial : World :=
  {| stdout := []; stderr := []; executed := []; ranges := 0 |}.

(** How the process stops before the end of [main]'s body. *)
Inductive Halt :=
| Exit (code : Z)          (* os.Exit(code), also through log.Fatalf *)
| Panic (p : PanicValue)   (* an unrecovered panic *)
| MainReturn.              (* return from main *)

(** Statements of [main]: a state transformer that yields a value or
    stops the process. *)
Definition M (A : Type) : Type := World -> (A + Halt) * World.

#[global] Instance M_ret : MRet M := fun A a w => (inl a, w).

#[global] Instance M_bind : MBind M := fun A B k m w =>
  match m w with
  | (inl a, w') => k a w'
  | (inr h, w') => (inr h, w')
  end.

Definition halt {A} (h : Halt) : M A := fun w => (inr h, w).

Definition liftGo {A} (x : Go A) : M A :=
  match x with
  | Return a => mret a
  | Panics p => halt (Panic p)
  end.

Definition printed (line : string) (w : World) : World :=
  {| stdout := stdout w ++ [line]; stderr := stderr w;
     executed := executed w; ranges := ranges w |}.

Definition logged (msg : string) (w : World) : World :=
  {| stdout := stdout w; stderr := stderr w ++ [msg];
     executed := executed w; ranges := ranges w |}.

Definition ran (query : string) (values : list any) (w : World) : World :=
  {| stdout := stdout w; stderr := stderr w;
     executed := executed w ++ [(query, values)]; ranges := ranges w |}.

Definition ranged (w : World) : World :=
  {| stdout := stdout w; stderr := stderr w;
     executed := executed w; ranges := S (ranges w) |}.

(** [fmt.Println(line)] *)
Definition Println (line : string) : M unit := fun w => (inl tt, printed line w).

(** [log.Fatalf]: the message, then [os.Exit(1)]. *)
Definition Fatalf {A} (msg : string) : M A := fun w => (inr (Exit 1%Z), logged msg w).

(** What the program asks of its surroundings. *)
Record Env := {
  (** [sqlx.Open("sqlserver", connectionString)] *)
  sqlx_Open : string -> option error;
  (** [os.ReadDir(dirPath)]: the names of the entries *)
  os_ReadDir : string -> list string + error;
  (** the three [db.Select] queries, by table name *)
  selectColumns : string -> list ColumnSchema + error;
  selectIdentityCount : string -> list Z + error;
  selectComputedColumns : string -> list string + error;
  (** [os.ReadFile(filePath)] and [json.Unmarshal(data, &allRecords)] *)
  os_ReadFile : string -> string + error;
  json_Unmarshal : string -> list Record_ + error;
  (** [os.Open(filePath)] wrapped by [csv.NewReader] with [Comma = ';'] *)
  os_Open : string -> Reader + error;
  (** [db.Exec(query, values...)], after the statements already executed *)
  db_Exec : list (string * list any) -> string -> list any -> option error;
  (** the order in which the [n]-th [range] of the run visits a schema *)
  rangeOrder : Schema -> nat -> list (string * ColumnSchema);
}.

(** The runtime visits every entry of the map once. *)
Definition permutes (env : Env) : Prop :=
  forall schema n, rangeOrder env schema n ≡ₚ map_to_list schema.

(** The start of a [range] over [schema]. *)
Definition rangeSchema (env : Env) (schema : Schema) : M (list (string * ColumnSchema)) :=
  fun w => (inl (rangeOrder env schema (ranges w)), ranged w).

(** [db.Exec(query, values...)] *)
Definition Exec (env : Env) (query : string) (values : list any) : M (option error) :=
  fun w => (inl (db_Exec env (executed w) query values), ran query values w).

(** The two variants of [main]. *)
Inductive Variant :=
| WithMust          (* fallible calls wrapped in must(...) *)
| WithHandleError.  (* fallible calls followed by handleError(err, code) *)

Definition AppExitCode := Z.
Definition SuccessCode : AppExitCode := 0%Z.
Definition ConnectErrorCode : AppExitCode := 1%Z.
Definition TableInfoErrorCode : AppExitCode := 2%Z.
Definition InsertDataErrorCode : AppExitCode := 3%Z.
Definition UnmarshalErrorCode : AppExitCode := 4%Z.
Definition ReadDirErrorCode : AppExitCode := 5%Z.
Definition ReadFileErrorCode : AppExitCode := 6%Z.
Definition OpenFileErrorCode : AppExitCode := 7%Z.

Definition exitCodeDescription : gmap Z string :=
  list_to_map [
    (SuccessCode, "success");
    (ConnectErrorCode, "error on connect to db");
    (TableInfoErrorCode, "error on get table info");
    (InsertDataErrorCode, "error on data insert in table");
    (UnmarshalErrorCode, "error on unmarshal inserted data");
    (ReadDirErrorCode, "error on read dir");
    (ReadFileErrorCode, "error on read file");
    (OpenFileErrorCode, "error on open file")
  ].

(** [func must[T any](res T, err error) T] *)
Definition must {T} (res : T + error) : M T :=
  match res with
  | inl v => mret v
  | inr err => halt (Panic (PanicError err))
  end.

(** [func try(err error)] *)
Definition try (err : option error) : M unit :=
  match err with
  | None => mret tt
  | Some e => halt (Panic (PanicError e))
  end.

(** [func handleError(err error, errorCode AppExitCode)] *)
Definition handleError (err : option error) (errorCode : AppExitCode) : M unit :=
  match err with
  | None => mret tt
  | Some e =>
      Println (default "" (exitCodeDescription !! errorCode) +:+ ": " +:+ Error e);;
      halt (Exit errorCode)
  end.

(** [v := must(f())] in one variant, [v, err := f(); handleError(err, code)]
    in the other. *)
Definition checked {T} (variant : Variant) (errorCode : AppExitCode) (res : T + error) : M T :=
  match variant with
  | WithMust => must res
  | WithHandleError =>
      match res with
      | inl v => mret v
      | inr err => handleError (Some err) errorCode;; halt (Exit errorCode)
      end
  end.

(** [schema := make(map[string]ColumnSchema); for _, col := range cols { schema[col.ColumnName] = col }] *)
Definition schemaOf (cols : list ColumnSchema) : Schema :=
  foldl (fun schema col => <[ColumnName col := col]> schema) ∅ cols.

Definition getTableSchema (env : Env) (tableName : string) : Schema + error :=
  match selectColumns env tableName with
  | inr err => inr err
  | inl cols => inl (schemaOf cols)
  end.

Definition isTableHasIdentity (env : Env) (tableName : string) : Go (bool + error) :=
  match selectIdentityCount env tableName with
  | inr err => Return (inr err)
  | inl res => n ← elemAt res 0; Return (inl (0 <? n)%Z)
  end.

Definition getComputeColumns (env : Env) (tableName : string) : list string + error :=
  selectComputedColumns env tableName.

(** [for _, x := range xs { body }] over a slice. *)
Fixpoint forEach {A} (body : A -> M unit) (xs : list A) : M unit :=
  match xs with
  | [] => mret tt
  | x :: xs' => body x;; forEach body xs'
  end.

(** The body of [for _, records := range allRecords]. *)
Definition processRecord (variant : Variant) (env : Env) (tableName : string)
    (schema : Schema) (isTableIdentity : bool) (computeColumns : list string)
    (ext : Format) (records : Record_) : M unit :=
  entries ← rangeSchema env schema;
  match project computeColumns ext records entries with
  | Fatal col origin => Fatalf (requiredFieldMessage col origin)
  | Projected columns values =>
      if (List.length columns =? 0)%nat then
        Println "No data to insert.";; halt MainReturn
      else
        let query := buildQuery tableName isTableIdentity columns in
        Println ("query  " +:+ query);;
        res ← Exec env query values;
        match variant with
        | WithMust => try res
        | WithHandleError => handleError res InsertDataErrorCode
        end
  end.

(** What the switch on [ext] leaves in [allRecords]. *)
Definition readRecords (variant : Variant) (env : Env) (filePath : string)
    (ext : Format) : M (list Record_) :=
  match ext with
  | Json =>
      data ← checked variant ReadFileErrorCode (os_ReadFile env filePath);
      match json_Unmarshal env data with
      | inl allRecords => mret allRecords
      | inr err => halt (Panic (PanicError err))
      end
  | Csv =>
      r ← checked variant OpenFileErrorCode (os_Open env filePath);
      let '(res, r') := Read r in
      headers ← checked variant UnmarshalErrorCode res;
      liftGo (csvLoop headers r' [])
  end.

(** The body of [for _, file := range files]. *)
Definition processFile (variant : Variant) (env : Env) (dirPath : string)
    (fileName : string) : M unit :=
  let filePath := dirPath +:+ "/" +:+ fileName in
  '(tableName, ext) ← liftGo (parseFileName fileName);
  schema ← checked variant TableInfoErrorCode (getTableSchema env tableName);
  isTableIdentity ← (res ← liftGo (isTableHasIdentity env tableName);
                     checked variant TableInfoErrorCode res);
  computeColumns ← checked variant TableInfoErrorCode (getComputeColumns env tableName);
  allRecords ← readRecords variant env filePath ext;
  forEach (processRecord variant env tableName schema isTableIdentity computeColumns ext)
          allRecords.

Record Flags := {
  dataSource : string;
  initialCatalog : string;
  userId : string;
  password : string;
  dirPath : string;
}.

Definition connectionString (flags : Flags) : string :=
  "Data Source=" +:+ dataSource flags +:+ "; Initial Catalog=" +:+ initialCatalog flags
  +:+ ";User ID=" +:+ userId flags +:+ ";Password=" +:+ password flags +:+ ";".

(** The loop over the directory entries. *)
Definition processFiles (variant : Variant) (env : Env) (dirPath : string)
    (files : list string) : M unit :=
  forEach (processFile variant env dirPath) files.

(** The statements of [func main()] that follow [flag.Parse()], with the
    values of the five flags in [flags]. *)
Definition main (variant : Variant) (env : Env) (flags : Flags) : M unit :=
  match variant with
  | WithMust => try (sqlx_Open env (connectionString flags))
  | WithHandleError => handleError (sqlx_Open env (connectionString flags)) ConnectErrorCode
  end;;
  files ← checked variant ReadDirErrorCode (os_ReadDir env (dirPath flags));
  processFiles variant env (dirPath flags) files;;
  Println "Upload done";;
  match variant with
  | WithMust => mret tt
  | WithHandleError => halt (Exit SuccessCode)
  end.

(** A whole run: how the process ends and what it has done. *)
Definition run (variant : Variant) (env : Env) (flags : Flags) : Halt * World :=
  match main variant env flags initial with
  | (inl tt, w) => (MainReturn, w)
  | (inr h, w) => (h, w)
  end.

(** ** Notions used to state the properties *)

(** What the parser does with the part after the first underscore, in
    terms of its dot-separated segments. *)
Definition afterUnderscore (nameAndExt : list string) : Go (string * Format) :=
  match nameAndExt with
  | [] => Panics (IndexOutOfRange 0 0)
  | [name] => Panics (IndexOutOfRange 1 1)
  | _ =>
      ext ← getFileFormat (List.last nameAndExt "");
      Return (strings.Join (removelast nameAndExt) "", ext)
  end.

(** What the loop appends for the entries it is given, when none is fatal. *)
Definition appended (computeColumns : list string) (ext : Format) (records : Record_)
    (entries : list (string * ColumnSchema)) : list (string * any) :=
  omap (fun '(col, colSchema) =>
          match loopBody computeColumns ext records col colSchema with
          | Append column val => Some (column, val)
          | _ => None
          end) entries.

(** An entry on which the loop body calls [log.Fatalf]. *)
Definition rejects (computeColumns : list string) (ext : Format) (records : Record_)
    (entry : string * ColumnSchema) : Prop :=
  exists origin, loopBody computeColumns ext records entry.1 entry.2 = LogFatalf origin.

(** A field of a record, present or not, as the column's schema takes it:
    a missing field and a CSV cell "NULL" are accepted unless the column is
    non-nullable without default. *)
Definition fieldAccepted (ext : Format) (colSchema : ColumnSchema)
    (field : option any) : Prop :=
  match field with
  | Some val => ~ (ext = Csv /\ val = AnyString "NULL" /\ required colSchema = true)
  | None => required colSchema = false
  end.

(** The run gets to the record [records] of a file of table [tableName],
    in world [w]: the connection and the directory are open, the files
    before it were processed to their end, the file's name, metadata and
    contents were obtained, and so were the records before it. *)
Definition reaches (variant : Variant) (env : Env) (flags : Flags)
    (tableName : string) (ext : Format) (schema : Schema) (isTableIdentity : bool)
    (computeColumns : list string) (records : Record_) (w : World) : Prop :=
  exists (before : list string) (fileName : string) (after : list string)
         (earlier later : list Record_) (w1 : World),
    sqlx_Open env (connectionString flags) = None /\
    os_ReadDir env (dirPath flags) = inl (before ++ fileName :: after) /\
    processFiles variant env (dirPath flags) before initial = (inl tt, w1) /\
    parseFileName fileName = Return (tableName, ext) /\
    getTableSchema env tableName = inl schema /\
    isTableHasIdentity env tableName = Return (inl isTableIdentity) /\
    getComputeColumns env tableName = inl computeColumns /\
    readRecords variant env (dirPath flags +:+ "/" +:+ fileName) ext w1
      = (inl (earlier ++ records :: later), w1) /\
    forEach (processRecord variant env tableName schema isTableIdentity computeColumns ext)
            earlier w1 = (inl tt, w).

(** ** Sample tables and records *)

Definition noDefault : NullString := {| String_ := ""; Valid := false |}.

Definition idColumn : ColumnSchema :=
  {| ColumnName := "id"; IsNullable := "NO"; ColumnDefault := noDefault; DataType := "int" |}.

Definition nameColumn : ColumnSchema :=
  {| ColumnName := "name"; IsNullable := "YES"; ColumnDefault := noDefault;
     DataType := "varchar" |}.

Definition tsColumn : ColumnSchema :=
  {| ColumnName := "ts"; IsNullable := "NO"; ColumnDefault := noDefault;
     DataType := "timestamp" |}.

Definition fullNameColumn : ColumnSchema :=
  {| ColumnName := "full_name"; IsNullable := "NO"; ColumnDefault := noDefault;
     DataType := "varchar" |}.

(** [float64(1)], what [encoding/json] stores for the number 1. *)
Definition float64_1 : spec_float := S754_finite false 4503599627370496 (-52).
Definition float64_2 : spec_float := S754_finite false 4503599627370496 (-51).

Definition scenarioSchema : Schema := schemaOf [idColumn; nameColumn].

Definition alice : Record_ :=
  {[ "id" := AnyFloat64 float64_1; "name" := AnyString "Alice" ]}.

(** The text and the arguments [db.Exec] receives for a record, when the
    projection is not fatal and not empty. *)
Definition statementFor (tableName : string) (isTableIdentity : bool)
    (computeColumns : list string) (ext : Format) (records : Record_)
    (entries : list (string * ColumnSchema)) : option (string * list any) :=
  match project computeColumns ext records entries with
  | Projected columns values =>
      if (List.length columns =? 0)%nat then None
      else Some (buildQuery tableName isTableIdentity columns, values)
  | Fatal _ _ => None
  end.

(** [@p1, @p2, ..., @pn] *)
Definition positional (n : nat) : list string :=
  (fun i => "@p" +:+ fmt.d i) <$> seq 1 n.

(** ** Base-10 integers, as a cell spells them *)

Definition digitChar (d : Z) : ascii := ascii_of_N (Z.to_N (48 + d)).

Definition numeral (ds : list Z) : string :=
  foldr (fun d s => String (digitChar d) s) "" ds.

Definition valueOf (ds : list Z) : Z :=
  foldl (fun acc d => acc * 10 + d)%Z 0%Z ds.

(** [s] is the base-10 spelling of the [int] [n]: an optional sign and one
    or more digits, nothing else. *)
Definition base10 (s : string) (n : Z) : Prop :=
  exists (sign : string) (ds : list Z),
    (sign = "" \/ sign = "+" \/ sign = "-") /\
    ds <> [] /\ Forall (fun d => 0 <= d <= 9)%Z ds /\
    s = sign +:+ numeral ds /\
    n = (if String.eqb sign "-" then - valueOf ds else valueOf ds)%Z /\
    (strconv.minInt <= n <= strconv.maxInt)%Z.

(** The record the CSV loop stores for a line, header by header. *)
Definition rowOf (headers : list string) (record : list string) : Record_ :=
  foldl (fun row '(header, cell) => <[header := cellValue cell]> row) ∅
        (zip headers record).

(** A directory, the metadata of its table and the contents of its files,
    as [main] finds them; the runtime visits maps in key order. *)
Definition sampleEnv (files : list string) (cols : list ColumnSchema)
    (identityCount : Z) (computed : list string) (csv : Reader)
    (json : list Record_) : Env :=
  {| sqlx_Open := fun _ => None;
     os_ReadDir := fun _ => inl files;
     selectColumns := fun _ => inl cols;
     selectIdentityCount := fun _ => inl [identityCount];
     selectComputedColumns := fun _ => inl computed;
     os_ReadFile := fun _ => inl "";
     json_Unmarshal := fun _ => inl json;
     os_Open := fun _ => inl csv;
     db_Exec := fun _ _ _ => None;
     rangeOrder := fun schema _ => map_to_list schema |}.

(** The default values of the flags. *)
Definition sampleFlags : Flags :=
  {| dataSource := "localhost,1433"; initialCatalog := "master";
     userId := "test"; password := "test"; dirPath := "test_data" |}.

(** A directory of two files; the first holds three lines for a table. *)
Definition usersEnv (cols : list ColumnSchema) (csv : Reader) : Env :=
  sampleEnv ["001_users.csv"; "002_orders.json"] cols 0 [] csv [].

(** ** Notions used to state further properties of the run *)

(** The run gets to the directory entry [fileName] in world [w]: the
    connection and the directory are open and the entries before it were
    processed to their end. *)
Definition reachesFile (variant : Variant) (env : Env) (flags : Flags)
    (fileName : string) (w : World) : Prop :=
  exists (before after : list string),
    sqlx_Open env (connectionString flags) = None /\
    os_ReadDir env (dirPath flags) = inl (before ++ fileName :: after) /\
    processFiles variant env (dirPath flags) before initial = (inl tt, w).

(** How a failed call ends the process in world [w]: [must] panics with the
    error; [handleError] prints the description of the code and the error,
    then exits with the code. *)
Definition failure (variant : Variant) (errorCode : AppExitCode) (err : error)
    (w : World) : Halt * World :=
  match variant with
  | WithMust => (Panic (PanicError err), w)
  | WithHandleError =>
      (Exit errorCode,
       printed (default "" (exitCodeDescription !! errorCode) +:+ ": " +:+ Error err) w)
  end.

(** The name, the metadata of the table and the format of a directory
    entry are obtained. *)
Definition described (env : Env) (fileName tableName : string) (ext : Format)
    (schema : Schema) (isTableIdentity : bool) (computeColumns : list string) : Prop :=
  parseFileName fileName = Return (tableName, ext) /\
  getTableSchema env tableName = inl schema /\
  isTableHasIdentity env tableName = Return (inl isTableIdentity) /\
  getComputeColumns env tableName = inl computeColumns.

(** How the process ends after the last directory entry. *)
Definition finished (variant : Variant) : Halt :=
  match variant with
  | WithMust => MainReturn
  | WithHandleError => Exit SuccessCode
  end.

(** What a statement of [main] may do to the log and how it may stop the
    process: either the log is left as it was and the process does not exit
    with status 1, any exit being one of [os.Exit] in the variant with
    [handleError]; or one required-field message is logged and the process
    exits with status 1. *)
Definition disciplined {A} (variant : Variant) (m : M A) : Prop :=
  forall w : World,
    (stderr (m w).2 = stderr w /\
     forall code, (m w).1 = inr (Exit code) ->
                  variant = WithHandleError /\
                  (code = 0 \/ 2 <= code <= 7)%Z) \/
    ((m w).1 = inr (Exit 1) /\
     exists col origin, stderr (m w).2 = stderr w ++ [requiredFieldMessage col origin]).

(** ** The command line *)

(** The part of package [flag] that [main] uses: five string flags on the
    default flag set [flag.CommandLine], whose error handling is
    [flag.ExitOnError] and whose output is the standard error. *)
Module flag.

(** A flag defined by [flag.StringVar(p, name, value, usage)]. *)
Record Flag := {
  Name : string;
  DefValue : string;
  Usage : string;
}.

(** The calls of [flag.StringVar] at the head of [main], in their order. *)
Definition formal : list Flag :=
  [ {| Name := "s"; DefValue := "localhost,1433"; Usage := "db data source" |};
    {| Name := "c"; DefValue := "master"; Usage := "initial catalog" |};
    {| Name := "u"; DefValue := "test"; Usage := "user id" |};
    {| Name := "p"; DefValue := "test"; Usage := "user password" |};
    {| Name := "d"; DefValue := "test_data";
       Usage := "path to dir with data to upload" |} ].

(** The variables of [main] before [flag.Parse()]: each holds the default
    value of its flag. *)
Definition defaults : Flags :=
  {| dataSource := "localhost,1433"; initialCatalog := "master";
     userId := "test"; password := "test"; dirPath := "test_data" |}.

(** [flag.Value.Set(value)] on the flag [name]: the variable the flag was
    defined with receives the value. *)
Definition Set_ (name value : string) (flags : Flags) : Flags :=
  if String.eqb name "s" then
    {| dataSource := value; initialCatalog := initialCatalog flags;
       userId := userId flags; password := password flags;
       dirPath := dirPath flags |}
  else if String.eqb name "c" then
    {| dataSource := dataSource flags; initialCatalog := value;
       userId := userId flags; password := password flags;
       dirPath := dirPath flags |}
  else if String.eqb name "u" then
    {| dataSource := dataSource flags; initialCatalog := initialCatalog flags;
       userId := value; password := password flags;
       dirPath := dirPath flags |}
  else if String.eqb name "p" then
    {| dataSource := dataSource flags; initialCatalog := initialCatalog flags;
       userId := userId flags; password := value;
       dirPath := dirPath flags |}
  else if String.eqb name "d" then
    {| dataSource := dataSource flags; initialCatalog := initialCatalog flags;
       userId := userId flags; password := password flags;
       dirPath := value |}
  else flags.

(** What ends the parsing: [flag.ErrHelp], or the error [failf] returns
    after printing its message. *)
Inductive ParseError :=
| ErrHelp
| Failed (msg : string).

(** The text of an argument from its first ['='] on is the value: the name
    is what stands before it, the value what stands after it. *)
Fixpoint cut (s : string) : string * option string :=
  match s with
  | EmptyString => (EmptyString, None)
  | String c rest =>
      if Ascii.eqb c "=" then (EmptyString, Some rest)
      else let '(name, value) := cut rest in (String c name, value)
  end.

(** [for i := 1; i < len(name); i++ { if name[i] == '=' { ... } }]: an
    equals sign cannot be first. *)
Definition nameAndValue (name : string) : string * option string :=
  match name with
  | EmptyString => (EmptyString, None)
  | String c rest => let '(name, value) := cut rest in (String c name, value)
  end.

(** [flag.Parse()] on the arguments after the program name: the loop of
    [FlagSet.Parse] over [parseOne].  An argument that is shorter than two
    bytes or does not start with ['-'] ends the flags, and so does "--";
    a flag [f.formal] does not hold is an error, or the request for help
    when its name is "h" or "help"; a flag takes its value after ['='] or
    from the next argument. *)
Fixpoint Parse (flags : Flags) (arguments : list string) : Flags + ParseError :=
  match arguments with
  | [] => inl flags
  | s :: rest =>
      match s with
      | String "-" (String c afterTwo as afterOne) =>
          if String.eqb s "--" then inl flags
          else
            let name := if Ascii.eqb c "-" then afterTwo else afterOne in
            match name with
            | EmptyString => inr (Failed ("bad flag syntax: " +:+ s))
            | String c0 _ =>
                if Ascii.eqb c0 "-" || Ascii.eqb c0 "=" then
                  inr (Failed ("bad flag syntax: " +:+ s))
                else
                  let '(name, value) := nameAndValue name in
                  match find (fun f => String.eqb (Name f) name) formal with
                  | None =>
                      if String.eqb name "help" || String.eqb name "h" then inr ErrHelp
                      else inr (Failed ("flag provided but not defined: -" +:+ name))
                  | Some _ =>
                      match value with
                      | Some value => Parse (Set_ name value flags) rest
                      | None =>
                          match rest with
                          | value :: rest' =>
                              Parse (Set_ name value flags) rest'
                          | [] => inr (Failed ("flag needs an argument: -" +:+ name))
                          end
                      end
                  end
            end
      | _ => inl flags
      end
  end.

(** [sortFlags]: the flags in lexicographical order of their names. *)
Fixpoint insertFlag (f : Flag) (sorted : list Flag) : list Flag :=
  match sorted with
  | [] => [f]
  | g :: sorted' =>
      if String.leb (Name f) (Name g) then f :: sorted
      else g :: insertFlag f sorted'
  end.

Definition sortFlags (flags : list Flag) : list Flag :=
  foldr insertFlag [] flags.

(** [%q] of a string without a byte to escape, as the default values are. *)
Definition q (s : string) : string :=
  String "034" EmptyString +:+ s +:+ String "034" EmptyString.

(** [flag.PrintDefaults()], line by line: for a string flag, two spaces,
    the name and the type on one line; four spaces, a tab, the usage and
    the default value, when it is not empty, on the next. *)
Definition PrintDefaults : list string :=
  flat_map (fun f =>
              [ "  -" +:+ Name f +:+ " string";
                "    " +:+ String "009" EmptyString +:+ Usage f
                +:+ (if String.eqb (DefValue f) "" then ""
                     else " (default " +:+ q (DefValue f) +:+ ")") ])
           (sortFlags formal).

End flag.

(** [flag.Usage]: the default one prints a header with the program name and
    the flags; the variant with exit codes replaces it by the flags followed
    by the table of the codes. *)
Definition Usage (variant : Variant) (program : string) : list string :=
  match variant with
  | WithMust => ("Usage of " +:+ program +:+ ":") :: flag.PrintDefaults
  | WithHandleError =>
      flag.PrintDefaults ++ [""; "Return codes:"] ++
      ((fun i => "  " +:+ fmt.d i +:+ " => "
                 +:+ default "" (exitCodeDescription !! Z.of_nat i))
         <$> seq 0 (size exitCodeDescription))
  end.

(** What the flag set writes to the standard error before the process
    exits, line by line: the usage alone for [-h] and [-help], the message
    of [failf] followed by the usage otherwise.  A world holds these lines
    in [stderr], where the messages of [log.Fatalf] go. *)
Definition parseOutput (variant : Variant) (program : string)
    (err : flag.ParseError) : list string :=
  match err with
  | flag.ErrHelp => Usage variant program
  | flag.Failed msg => msg :: Usage variant program
  end.

(** [case ExitOnError: if err == ErrHelp { os.Exit(0) }; os.Exit(2)] *)
Definition parseExit (err : flag.ParseError) : Z :=
  match err with
  | flag.ErrHelp => 0
  | flag.Failed _ => 2
  end.

(** [func main()] from its first statement, for [os.Args = program ::
    arguments]: the flags are defined and [flag.Parse()] reads the
    arguments; when it returns, the statements embedded by [main] run with
    the values it has stored. *)
Definition command (variant : Variant) (env : Env) (program : string)
    (arguments : list string) : Halt * World :=
  match flag.Parse flag.defaults arguments with
  | inl flags => run variant env flags
  | inr err =>
      (Exit (parseExit err),
       {| stdout := []; stderr := parseOutput variant program err;
          executed := []; ranges := 0 |})
  end.

(** ** Tactics *)

(** On a concrete schema, a lookup hypothesis is split into one case per
    column. *)
Ltac each_column H :=
  apply elem_of_map_to_list in H;
  match type of H with
  | _ ∈ map_to_list ?m =>
      let l := fresh "l" in
      set (l := map_to_list m) in H; vm_compute in l; subst l
  end;
  repeat (apply elem_of_cons in H as [[= -> ->] | H]);
  [.. | inversion H].

(** * Properties *)

#[local] Arguments String.append : simpl nomatch.

(** ** Byte strings *)

Section strings_facts.
Import strings.
Variable sep : ascii.

Lemma append_nil_r (s : string) : s +:+ "" = s.
Proof. induction s as [|c s IH]; simpl; [reflexivity | now rewrite IH]. Qed.

Lemma append_assoc (a b c : string) : (a +:+ b) +:+ c = a +:+ (b +:+ c).
Proof. induction a as [|x a IH]; simpl; [reflexivity | now rewrite IH]. Qed.

Lemma Contains_append (a b : string) :
  Contains (a +:+ b) sep = Contains a sep || Contains b sep.
Proof.
  induction a as [|c a IH]; simpl; [reflexivity|].
  destruct (Ascii.eqb c sep); [reflexivity | exact IH].
Qed.

Lemma Split_nonempty (s : string) : Split s sep <> [].
Proof.
  destruct s as [|c s]; simpl; [discriminate|].
  destruct (Ascii.eqb c sep); [discriminate|].
  destruct (Split s sep); discriminate.
Qed.

Lemma Split_no_sep (s : string) : Contains s sep = false -> Split s sep = [s].
Proof.
  induction s as [|c s IH]; simpl; [reflexivity|].
  destruct (Ascii.eqb c sep); [discriminate|].
  intros H. now rewrite (IH H).
Qed.

Lemma Split_cons (a b : string) :
  Contains a sep = false ->
  Split (a +:+ String sep b) sep = a :: Split b sep.
Proof.
  induction a as [|c a IH]; simpl.
  - intros _. now rewrite Ascii.eqb_refl.
  - destruct (Ascii.eqb c sep); [discriminate|].
    intros H. now rewrite (IH H).
Qed.

Lemma Split_app (a b : string) :
  Split (a +:+ String sep b) sep = Split a sep ++ Split b sep.
Proof.
  induction a as [|c a IH]; simpl.
  - now rewrite Ascii.eqb_refl.
  - destruct (Ascii.eqb c sep); [now rewrite IH|].
    rewrite IH. pose proof (Split_nonempty a) as Hne.
    destruct (Split a sep); [congruence | reflexivity].
Qed.

(** Splitting what [Join] assembled from separator-free segments gives the
    segments back. *)
Lemma Split_Join (segs : list string) :
  segs <> [] ->
  Forall (fun seg => Contains seg sep = false) segs ->
  Split (Join segs (String sep "")) sep = segs.
Proof.
  unfold Join. induction segs as [|seg segs IH]; [congruence|].
  intros _ Hall. inversion Hall as [|? ? Hseg Hrest]; subst.
  destruct segs as [|seg' segs].
  - simpl. now apply Split_no_sep.
  - change (String.concat (String sep "") (seg :: seg' :: segs))
      with (seg +:+ String sep (String.concat (String sep "") (seg' :: segs))).
    rewrite Split_cons by assumption.
    f_equal. apply IH; [discriminate | assumption].
Qed.

Lemma Split_segments (s : string) :
  Forall (fun seg => Contains seg sep = false) (Split s sep).
Proof.
  induction s as [|c s IH]; simpl.
  - constructor; [reflexivity | constructor].
  - destruct (Ascii.eqb c sep) eqn:E.
    + constructor; [reflexivity | exact IH].
    + destruct (Split s sep) as [|h t]; inversion IH; subst.
      * constructor; [simpl; now rewrite E | constructor].
      * constructor; [simpl; now rewrite E | assumption].
Qed.

(** Joining the pieces of a split with the separator restores the string. *)
Lemma Join_Split (s : string) : Join (Split s sep) (String sep "") = s.
Proof.
  unfold Join. induction s as [|c s IH]; simpl; [reflexivity|].
  destruct (Ascii.eqb c sep) eqn:E.
  - apply Ascii.eqb_eq in E. subst c.
    pose proof (Split_nonempty s) as Hne.
    destruct (Split s sep) as [|h t]; [congruence|].
    simpl in *. now rewrite IH.
  - pose proof (Split_nonempty s) as Hne.
    destruct (Split s sep) as [|h t]; [congruence|].
    destruct t; simpl in *; now rewrite <- IH.
Qed.

Lemma SplitN_2_no_sep (s : string) :
  Contains s sep = false -> SplitN s sep 2 = [s].
Proof.
  unfold SplitN. simpl.
  induction s as [|c s IH]; simpl; [reflexivity|].
  destruct (Ascii.eqb c sep); [discriminate|].
  intros H. now rewrite (IH H).
Qed.

Lemma SplitN_pos_1 (s : string) : SplitN_pos s sep 1 = [s].
Proof. destruct s; reflexivity. Qed.

Lemma SplitN_2_cut (pre rest : string) :
  Contains pre sep = false ->
  SplitN (pre +:+ String sep rest) sep 2 = [pre; rest].
Proof.
  unfold SplitN. simpl.
  induction pre as [|c pre IH]; simpl.
  - intros _. now rewrite Ascii.eqb_refl, SplitN_pos_1.
  - destruct (Ascii.eqb c sep); [discriminate|].
    intros H. now rewrite (IH H).
Qed.

(** Every string either lacks the separator or is cut at its first
    occurrence. *)
Lemma first_sep (s : string) :
  Contains s sep = false \/
  exists pre rest, s = pre +:+ String sep rest /\ Contains pre sep = false.
Proof.
  induction s as [|c s IH]; simpl; [now left|].
  destruct (Ascii.eqb c sep) eqn:E.
  - right. apply Ascii.eqb_eq in E. subst c. now exists "", s.
  - destruct IH as [H | (pre & rest & -> & H)]; [now left|].
    right. exists (String c pre), rest. simpl. now rewrite E.
Qed.

(** ... and, symmetrically, at its last occurrence. *)
Lemma last_sep (s : string) :
  Contains s sep = false \/
  exists name ext, s = name +:+ String sep ext /\ Contains ext sep = false.
Proof.
  induction s as [|c s IH]; simpl; [now left|].
  destruct IH as [H | (name & ext & -> & H)].
  - destruct (Ascii.eqb c sep) eqn:E; [|now left].
    right. apply Ascii.eqb_eq in E. subst c. now exists "", s.
  - right. exists (String c name), ext. now split.
Qed.

End strings_facts.

(** ** File names *)

Lemma getFileFormat_incorrect (strFormat : string) :
  getFileFormat strFormat = Panics (PanicString "incorrect format") <->
  strFormat <> "json" /\ strFormat <> "csv".
Proof.
  unfold getFileFormat.
  destruct (String.eqb_spec strFormat "json") as [-> | Hj].
  { split; [discriminate | intros [H _]; congruence]. }
  destruct (String.eqb_spec strFormat "csv") as [-> | Hc].
  { split; [discriminate | intros [_ H]; congruence]. }
  now split.
Qed.

Lemma getFileFormat_not_index (strFormat : string) (i n : nat) :
  getFileFormat strFormat <> Panics (IndexOutOfRange i n).
Proof.
  unfold getFileFormat.
  destruct (String.eqb strFormat "json"); [discriminate|].
  destruct (String.eqb strFormat "csv"); discriminate.
Qed.

Lemma take_pred_removelast {A} (l : list A) :
  take (List.length l - 1) l = removelast l.
Proof.
  induction l as [|x l IH]; [reflexivity|].
  destruct l as [|y l]; [reflexivity|].
  simpl in *. f_equal. rewrite <- IH. now rewrite Nat.sub_0_r.
Qed.

Lemma lookup_pred_last (l : list string) :
  l <> [] -> l !! (List.length l - 1) = Some (List.last l "").
Proof.
  induction l as [|x l IH]; [congruence|]. intros _.
  destruct l as [|y l]; [reflexivity|].
  simpl in *. rewrite Nat.sub_0_r in IH. apply IH. discriminate.
Qed.

Lemma parseFileName_after (pre rest : string) :
  strings.Contains pre "_" = false ->
  parseFileName (pre +:+ String "_" rest) = afterUnderscore (strings.Split rest ".").
Proof.
  intros Hpre. unfold parseFileName.
  rewrite SplitN_2_cut by assumption.
  change (elemAt [pre; rest] 1) with (Return rest).
  change (Return rest ≫= ?k) with (k rest). cbv beta zeta.
  pose proof (Split_nonempty "." rest) as Hne.
  destruct (strings.Split rest ".") as [|name [|e [|e' segs]]] eqn:E;
    [congruence | reflexivity | | ].
  - simpl. destruct (getFileFormat e); reflexivity.
  - assert (Hlt : (2 <? List.length (name :: e :: e' :: segs))%nat = true)
      by (apply Nat.ltb_lt; simpl; lia).
    rewrite Hlt. unfold elemAt.
    rewrite lookup_pred_last by discriminate.
    rewrite take_pred_removelast. reflexivity.
Qed.

Lemma parseFileName_no_underscore (fn : string) :
  strings.Contains fn "_" = false ->
  parseFileName fn = Panics (IndexOutOfRange 1 1).
Proof.
  intros H. unfold parseFileName. now rewrite SplitN_2_no_sep.
Qed.

Lemma last_app_singleton (segs : list string) (ext : string) :
  List.last (segs ++ [ext]) "" = ext.
Proof. apply last_last. Qed.

Lemma afterUnderscore_snoc (segs : list string) (ext : string) :
  segs <> [] ->
  afterUnderscore (segs ++ [ext]) =
    (f ← getFileFormat ext; Return (strings.Join segs "", f)).
Proof.
  intros Hne. unfold afterUnderscore.
  rewrite last_last, removelast_last.
  destruct segs as [|a [|b segs]]; [congruence | reflexivity | reflexivity].
Qed.

Lemma parseFileName_segments (pre : string) (segs : list string) (ext : string) :
  strings.Contains pre "_" = false ->
  segs <> [] ->
  Forall (fun seg => strings.Contains seg "." = false) (segs ++ [ext]) ->
  parseFileName (pre +:+ "_" +:+ strings.Join (segs ++ [ext]) ".") =
    (f ← getFileFormat ext; Return (strings.Join segs "", f)).
Proof.
  intros Hpre Hne Hall.
  change (pre +:+ "_" +:+ ?r) with (pre +:+ String "_" r).
  rewrite parseFileName_after by assumption.
  rewrite Split_Join; [| now destruct segs | assumption].
  now apply afterUnderscore_snoc.
Qed.

(** C5, as the claim words its example: the multi-underscore name does not
    lose its underscore, so the table is not "customerorders". *)
Lemma parseFileName_keeps_later_underscores :
  parseFileName "001_customer_orders.json" = Return ("customer_orders", Json) /\
  parseFileName "001_customer_orders.json" <> Return ("customerorders", Json).
Proof. split; [reflexivity | discriminate]. Qed.

(** C5 (amended): the name is cut at its first underscore and the rest is
    split at dots; with at least two dot-segments, all but the last are
    joined without separator into the table name and the last is the format.
    For "001_customer_orders.json" the table is "customer_orders" (underscores
    after the first are kept) and the format JSON; dots, not underscores, are
    what the join removes, as in "001_customer.orders.json". *)
Theorem parseFileName_joins_dot_segments :
  (forall (pre : string) (segs : list string) (ext : string),
      strings.Contains pre "_" = false ->
      segs <> [] ->
      Forall (fun seg => strings.Contains seg "." = false) (segs ++ [ext]) ->
      parseFileName (pre +:+ "_" +:+ strings.Join (segs ++ [ext]) ".") =
        (f ← getFileFormat ext; Return (strings.Join segs "", f))) /\
  parseFileName "001_customer_orders.json" = Return ("customer_orders", Json) /\
  parseFileName "001_customer.orders.json" = Return ("customerorders", Json).
Proof.
  split; [exact parseFileName_segments | split; reflexivity].
Qed.

Lemma parseFileName_joins_dot_segments_witness :
  parseFileName "2024_sales.archive.csv" = Return ("salesarchive", Csv).
Proof.
  destruct parseFileName_joins_dot_segments as [H _].
  apply (H "2024" ["sales"; "archive"] "csv").
  - reflexivity.
  - discriminate.
  - repeat constructor.
Defined.

Lemma afterUnderscore_incorrect (nameAndExt : list string) :
  afterUnderscore nameAndExt = Panics (PanicString "incorrect format") <->
  2 <= List.length nameAndExt /\
  List.last nameAndExt "" <> "json" /\ List.last nameAndExt "" <> "csv".
Proof.
  destruct nameAndExt as [|a [|b rest]].
  - simpl. split; [discriminate | lia].
  - simpl. split; [discriminate | lia].
  - unfold afterUnderscore. set (l := List.last _ _).
    rewrite <- getFileFormat_incorrect.
    destruct (getFileFormat l) as [f|p]; simpl.
    + split; [discriminate | intros [_ H]; discriminate].
    + split; [intros [= ->]; split; [lia | reflexivity] | intros [_ [= ->]]; reflexivity].
Qed.

(** C10: a name without underscore, or without a dot after its first
    underscore, makes the parser panic with an index out of range, not with
    "incorrect format"; that panic is raised exactly when the part after the
    first underscore has a dot and what follows its last dot is neither
    "json" nor "csv". *)
Theorem parseFileName_panics :
  (forall fn : string,
      strings.Contains fn "_" = false ->
      parseFileName fn = Panics (IndexOutOfRange 1 1)) /\
  (forall pre rest : string,
      strings.Contains pre "_" = false ->
      strings.Contains rest "." = false ->
      parseFileName (pre +:+ "_" +:+ rest) = Panics (IndexOutOfRange 1 1)) /\
  (forall fn : string,
      parseFileName fn = Panics (PanicString "incorrect format") <->
      exists pre name ext : string,
        fn = pre +:+ "_" +:+ name +:+ "." +:+ ext /\
        strings.Contains pre "_" = false /\
        strings.Contains ext "." = false /\
        ext <> "json" /\ ext <> "csv").
Proof.
  split; [exact parseFileName_no_underscore | split].
  - intros pre rest Hpre Hrest.
    change (pre +:+ "_" +:+ rest) with (pre +:+ String "_" rest).
    rewrite parseFileName_after by assumption.
    now rewrite Split_no_sep.
  - intros fn. split.
    + intros Hpanic.
      destruct (first_sep "_" fn) as [Hno | (pre & rest & -> & Hpre)].
      { rewrite parseFileName_no_underscore in Hpanic by assumption. discriminate. }
      rewrite parseFileName_after in Hpanic by assumption.
      apply afterUnderscore_incorrect in Hpanic as (Hlen & Hj & Hc).
      destruct (last_sep "." rest) as [Hno | (name & ext & -> & Hext)].
      { rewrite Split_no_sep in Hlen by assumption. simpl in Hlen. lia. }
      rewrite Split_app, (Split_no_sep "." ext) in Hj, Hc by assumption.
      rewrite last_last in Hj, Hc.
      now exists pre, name, ext.
    + intros (pre & name & ext & -> & Hpre & Hext & Hj & Hc).
      change (pre +:+ "_" +:+ name +:+ "." +:+ ext)
        with (pre +:+ String "_" (name +:+ String "." ext)).
      rewrite parseFileName_after by assumption.
      rewrite Split_app, (Split_no_sep "." ext) by assumption.
      rewrite afterUnderscore_snoc by apply Split_nonempty.
      pose proof (proj2 (getFileFormat_incorrect ext) (conj Hj Hc)) as ->. reflexivity.
Qed.

Lemma parseFileName_panics_witness :
  parseFileName "users.json" = Panics (IndexOutOfRange 1 1) /\
  parseFileName "001_users" = Panics (IndexOutOfRange 1 1) /\
  parseFileName "001_users.xml" = Panics (PanicString "incorrect format").
Proof.
  destruct parseFileName_panics as (Hnone & Hnodot & Hformat).
  split; [| split].
  - apply (Hnone "users.json"). reflexivity.
  - apply (Hnodot "001" "users"); reflexivity.
  - apply (Hformat "001_users.xml"). exists "001", "users", "xml".
    repeat split; discriminate.
Defined.

(** ** The projection projectLoop computeColumns ext records *)

Section projection.
Variable computeColumns : list string.
Variable ext : Format.
Variable records : Record_.

Lemma appended_cons (col : string) (colSchema : ColumnSchema)
    (rest : list (string * ColumnSchema)) :
  appended computeColumns ext records ((col, colSchema) :: rest) =
    match loopBody computeColumns ext records col colSchema with
    | Append column val => (column, val) :: appended computeColumns ext records rest
    | _ => appended computeColumns ext records rest
    end.
Proof.
  unfold appended. simpl. destruct (loopBody computeColumns ext records col colSchema); reflexivity.
Qed.

(** Without a fatal entry the loop runs to its end and extends both slices
    by what the entries append, in the order of the visit. *)
Lemma projectLoop_Projected (entries : list (string * ColumnSchema)) :
  forall columns values,
    Forall (fun entry => ~ rejects computeColumns ext records entry) entries ->
    projectLoop computeColumns ext records entries columns values =
      Projected (columns ++ (appended computeColumns ext records entries).*1) (values ++ (appended computeColumns ext records entries).*2).
Proof.
  induction entries as [|[col colSchema] rest IH]; intros columns values Hok.
  - simpl. now rewrite !app_nil_r.
  - inversion Hok as [|? ? Hhead Hrest]; subst.
    rewrite appended_cons. simpl.
    destruct (loopBody computeColumns ext records col colSchema) as [|column val|origin] eqn:E.
    + now apply IH.
    + rewrite IH by assumption. simpl. now rewrite <- !app_assoc.
    + exfalso. apply Hhead. now exists origin.
Qed.

(** The loop stops at the first fatal entry. *)
Lemma projectLoop_Fatal (pre post : list (string * ColumnSchema))
    (col : string) (colSchema : ColumnSchema) (origin : Format) :
  forall columns values,
    Forall (fun entry => ~ rejects computeColumns ext records entry) pre ->
    loopBody computeColumns ext records col colSchema = LogFatalf origin ->
    projectLoop computeColumns ext records (pre ++ (col, colSchema) :: post) columns values = Fatal col origin.
Proof.
  induction pre as [|[c s] pre IH]; intros columns values Hpre Hbody.
  - simpl. now rewrite Hbody.
  - inversion Hpre as [|? ? Hhead Hrest]; subst. simpl.
    destruct (loopBody computeColumns ext records c s) as [|column val|o] eqn:E.
    + now apply IH.
    + now apply IH.
    + exfalso. apply Hhead. now exists o.
Qed.

Lemma rejects_dec (entry : string * ColumnSchema) :
  {rejects computeColumns ext records entry} + {~ rejects computeColumns ext records entry}.
Proof.
  unfold rejects. destruct (loopBody computeColumns ext records entry.1 entry.2) as [| |origin] eqn:E.
  - right. intros [o Ho]. discriminate.
  - right. intros [o Ho]. discriminate.
  - left. now exists origin.
Qed.

(** Every list of entries either has no fatal entry or splits at its
    first one. *)
Lemma first_rejected (entries : list (string * ColumnSchema)) :
  Forall (fun entry => ~ rejects computeColumns ext records entry) entries \/
  exists pre col colSchema origin post,
    entries = pre ++ (col, colSchema) :: post /\
    Forall (fun entry => ~ rejects computeColumns ext records entry) pre /\
    loopBody computeColumns ext records col colSchema = LogFatalf origin.
Proof.
  induction entries as [|[c s] rest IH]; [left; constructor|].
  destruct (rejects_dec (c, s)) as [[o Ho] | Hno].
  - right. exists [], c, s, o, rest. repeat split; [constructor | exact Ho].
  - destruct IH as [Hall | (pre & col & cs & o & post & -> & Hpre & Hbody)].
    + left. now constructor.
    + right. exists ((c, s) :: pre), col, cs, o, post.
      repeat split; [now constructor | exact Hbody].
Qed.

(** The loop is fatal exactly on the first entry whose body is. *)
Lemma project_Fatal_inv (entries : list (string * ColumnSchema))
    (col : string) (origin : Format) :
  project computeColumns ext records entries = Fatal col origin ->
  exists colSchema, (col, colSchema) ∈ entries /\ loopBody computeColumns ext records col colSchema = LogFatalf origin.
Proof.
  unfold project. intros H.
  destruct (first_rejected entries)
    as [Hall | (pre & c & cs & o & post & -> & Hpre & Hbody)].
  - rewrite projectLoop_Projected in H by assumption. discriminate.
  - rewrite (projectLoop_Fatal pre post c cs o) in H by assumption.
    injection H as -> ->. exists cs. split; [|assumption].
    apply elem_of_app. right. left.
Qed.

Lemma project_Projected_inv (entries : list (string * ColumnSchema))
    (columns : list string) (values : list any) :
  project computeColumns ext records entries = Projected columns values ->
  Forall (fun entry => ~ rejects computeColumns ext records entry) entries /\
  columns = (appended computeColumns ext records entries).*1 /\ values = (appended computeColumns ext records entries).*2.
Proof.
  unfold project. intros H.
  destruct (first_rejected entries)
    as [Hall | (pre & c & cs & o & post & -> & Hpre & Hbody)].
  - rewrite projectLoop_Projected in H by assumption.
    injection H as <- <-. now split.
  - rewrite (projectLoop_Fatal pre post c cs o) in H by assumption. discriminate.
Qed.

(** A fatal entry anywhere makes the whole projection fatal (on that entry
    or on one visited before it). *)
Lemma project_Fatal_intro (entries : list (string * ColumnSchema))
    (col : string) (colSchema : ColumnSchema) (origin : Format) :
  (col, colSchema) ∈ entries ->
  loopBody computeColumns ext records col colSchema = LogFatalf origin ->
  exists c o, project computeColumns ext records entries = Fatal c o.
Proof.
  intros Hin Hbody. unfold project.
  destruct (first_rejected entries)
    as [Hall | (pre & c & cs & o & post & -> & Hpre & Hb)].
  - exfalso. rewrite Forall_forall in Hall.
    apply (Hall (col, colSchema) Hin). now exists origin.
  - exists c, o. now apply projectLoop_Fatal.
Qed.

(** Whatever is appended comes from an entry whose body appends it. *)
Lemma elem_of_appended (entries : list (string * ColumnSchema))
    (column : string) (val : any) :
  (column, val) ∈ appended computeColumns ext records entries <->
  exists col colSchema,
    (col, colSchema) ∈ entries /\ loopBody computeColumns ext records col colSchema = Append column val.
Proof.
  unfold appended. rewrite list_elem_of_omap. split.
  - intros ([col cs] & Hin & Hsome). exists col, cs. split; [assumption|].
    destruct (loopBody computeColumns ext records col cs); congruence.
  - intros (col & cs & Hin & Hbody). exists (col, cs). split; [assumption|].
    now rewrite Hbody.
Qed.

Lemma loopBody_Append_inv (col : string) (colSchema : ColumnSchema)
    (column : string) (val : any) :
  loopBody computeColumns ext records col colSchema = Append column val ->
  column = "[" +:+ col +:+ "]" /\ records !! col = Some val /\
  serverManaged computeColumns col colSchema = false /\
  ~ (ext = Csv /\ val = AnyString "NULL").
Proof.
  unfold loopBody. destruct (records !! col) as [v|]; [|destruct (required _); discriminate].
  destruct (serverManaged _ _ _); [discriminate|].
  destruct (bool_decide (ext = Csv) && any_eq_string v "NULL") eqn:E.
  - destruct (required _); discriminate.
  - intros [= <- <-]. repeat split; try reflexivity.
    intros [-> ->]. simpl in E. discriminate.
Qed.

End projection.

(** ** The schema map and the order of its visit *)

Lemma visit_lookup (schema : Schema) (entries : list (string * ColumnSchema))
    (col : string) (colSchema : ColumnSchema) :
  entries ≡ₚ map_to_list schema ->
  (col, colSchema) ∈ entries <-> schema !! col = Some colSchema.
Proof.
  intros Hperm. rewrite Hperm. apply elem_of_map_to_list.
Qed.

Lemma bracket_inj (c1 c2 : string) :
  "[" +:+ c1 +:+ "]" = "[" +:+ c2 +:+ "]" -> c1 = c2.
Proof.
  intros H. injection H as H. revert c2 H.
  induction c1 as [|a c1 IH]; intros [|b c2] H; simpl in H.
  - reflexivity.
  - destruct c2; discriminate.
  - destruct c1; discriminate.
  - injection H as -> H. f_equal. now apply IH.
Qed.

Lemma required_false (colSchema : ColumnSchema) :
  required colSchema = false <->
  IsNullable colSchema = "YES" \/ Valid (ColumnDefault colSchema) = true.
Proof.
  unfold required.
  destruct (String.eqb_spec (IsNullable colSchema) "YES") as [-> | Hne];
    destruct (Valid (ColumnDefault colSchema)); simpl; split; auto;
    intros [H | H]; congruence.
Qed.

Section row.
Variable schema : Schema.
Variable entries : list (string * ColumnSchema).
Hypothesis visit : entries ≡ₚ map_to_list schema.
Variable computeColumns : list string.
Variable ext : Format.
Variable records : Record_.

(** A column that appears in the result was appended by its own entry. *)
Lemma column_in_result (columns : list string) (values : list any) (col : string)
    (colSchema : ColumnSchema) :
  project computeColumns ext records entries = Projected columns values ->
  schema !! col = Some colSchema ->
  "[" +:+ col +:+ "]" ∈ columns ->
  exists val, loopBody computeColumns ext records col colSchema
              = Append ("[" +:+ col +:+ "]") val.
Proof.
  intros Hproj Hcol Hin.
  apply project_Projected_inv in Hproj as (_ & -> & _).
  apply list_elem_of_fmap in Hin as ([column val] & Hcolumn & Hin). simpl in Hcolumn.
  subst column.
  apply elem_of_appended in Hin as (c & cs & Hentry & Hbody).
  pose proof (loopBody_Append_inv _ _ _ _ _ _ _ Hbody) as (Heq & _).
  apply bracket_inj in Heq. subst c.
  apply (visit_lookup schema) in Hentry; [|exact visit].
  rewrite Hcol in Hentry. injection Hentry as <-. now exists val.
Qed.

(** A column whose body continues is neither in the result nor the column
    named by a fatal exit. *)
Lemma continue_omits (col : string) (colSchema : ColumnSchema) :
  schema !! col = Some colSchema ->
  loopBody computeColumns ext records col colSchema = Continue ->
  (forall columns values,
      project computeColumns ext records entries = Projected columns values ->
      "[" +:+ col +:+ "]" ∉ columns) /\
  (forall c origin,
      project computeColumns ext records entries = Fatal c origin -> c <> col).
Proof.
  intros Hcol Hbody. split.
  - intros columns values Hproj Hin.
    destruct (column_in_result columns values col colSchema Hproj Hcol Hin) as [val Hval].
    congruence.
  - intros c origin Hproj ->.
    apply project_Fatal_inv in Hproj as (cs & Hentry & Hfatal).
    apply (visit_lookup schema) in Hentry; [|exact visit].
    rewrite Hcol in Hentry. injection Hentry as <-. congruence.
Qed.

(** The two slices of a result have the same length, and position by
    position hold a bracketed schema column and the record's value for it. *)
Lemma result_consistent (columns : list string) (values : list any) :
  project computeColumns ext records entries = Projected columns values ->
  List.length columns = List.length values /\
  forall (i : nat) (column : string),
    columns !! i = Some column ->
    exists col val,
      column = "[" +:+ col +:+ "]" /\ is_Some (schema !! col) /\
      values !! i = Some val /\ records !! col = Some val.
Proof.
  intros Hproj. apply project_Projected_inv in Hproj as (_ & -> & ->).
  split; [now rewrite !length_fmap|].
  intros i column Hi.
  rewrite list_lookup_fmap in Hi.
  destruct (appended computeColumns ext records entries !! i) as [[column' val]|] eqn:E;
    [|discriminate].
  simpl in Hi. injection Hi as ->.
  pose proof (list_elem_of_lookup_2 _ _ _ E) as Hin.
  apply elem_of_appended in Hin as (col & cs & Hentry & Hbody).
  apply loopBody_Append_inv in Hbody as (-> & Hval & _).
  apply (visit_lookup schema) in Hentry; [|exact visit].
  exists col, val. repeat split; [now exists cs | | assumption].
  now rewrite list_lookup_fmap, E.
Qed.

(** When no column of the schema is fatal for the record, the loop ends
    with a result. *)
Lemma project_succeeds :
  (forall col colSchema,
      schema !! col = Some colSchema ->
      forall origin, loopBody computeColumns ext records col colSchema <> LogFatalf origin) ->
  exists columns values,
    project computeColumns ext records entries = Projected columns values.
Proof.
  intros Hok. unfold project.
  rewrite projectLoop_Projected; [eauto|].
  apply Forall_forall. intros [col cs] Hentry [origin Hfatal].
  apply (visit_lookup schema) in Hentry; [|exact visit].
  exact (Hok col cs Hentry origin Hfatal).
Qed.

(** A fatal column anywhere in the schema makes the projection fatal, on a
    column of the schema whose own body is fatal. *)
Lemma project_fails (col : string) (colSchema : ColumnSchema) (origin : Format) :
  schema !! col = Some colSchema ->
  loopBody computeColumns ext records col colSchema = LogFatalf origin ->
  exists c cs o,
    project computeColumns ext records entries = Fatal c o /\
    schema !! c = Some cs /\
    loopBody computeColumns ext records c cs = LogFatalf o.
Proof.
  intros Hcol Hbody.
  apply (visit_lookup schema entries) in Hcol; [|exact visit].
  destruct (project_Fatal_intro _ _ _ _ _ _ _ Hcol Hbody) as (c & o & Hproj).
  pose proof (project_Fatal_inv _ _ _ _ _ _ Hproj) as (cs & Hentry & Hfatal).
  apply (visit_lookup schema) in Hentry; [|exact visit].
  now exists c, cs, o.
Qed.

End row.

(** ** Columns managed by the server, required columns, optional columns *)

Lemma Contains_In (s : list string) (v : string) :
  slices.Contains s v = true <-> v ∈ s.
Proof.
  unfold slices.Contains. rewrite existsb_exists. split.
  - intros (x & Hin & Heq). apply String.eqb_eq in Heq. subst x.
    now apply list_elem_of_In.
  - intros Hin. exists v. split; [now apply list_elem_of_In | apply String.eqb_refl].
Qed.

Lemma serverManaged_true (computeColumns : list string) (col : string)
    (colSchema : ColumnSchema) :
  serverManaged computeColumns col colSchema = true <->
  DataType colSchema = "timestamp" \/ col ∈ computeColumns.
Proof.
  unfold serverManaged. rewrite orb_true_iff, String.eqb_eq, Contains_In. tauto.
Qed.

Lemma loopBody_server_managed (computeColumns : list string) (ext : Format)
    (records : Record_) (col : string) (colSchema : ColumnSchema) :
  serverManaged computeColumns col colSchema = true ->
  loopBody computeColumns ext records col colSchema =
    match records !! col with
    | Some _ => Continue
    | None => if required colSchema then LogFatalf Json else Continue
    end.
Proof.
  intros H. unfold loopBody. rewrite H. reflexivity.
Qed.

(** C1, at the failing input: a table with a non-nullable timestamp
    column without default and a JSON record that does not hold it.  The
    column is not skipped: the projection stops with the fatal error
    "required field ts missing from json".  The required-field test of the
    [else] branch is not under the timestamp/computed guard of the branch
    beside it. *)
Lemma absent_timestamp_column_is_fatal :
  let schema := schemaOf [idColumn; tsColumn] in
  let records : Record_ := {[ "id" := AnyFloat64 float64_1 ]} in
  schema !! "ts" = Some tsColumn /\
  DataType tsColumn = "timestamp" /\
  records !! "ts" = None /\
  project [] Json records (map_to_list schema) = Fatal "ts" Json.
Proof. vm_compute. repeat split. Qed.

(** Where the code does skip such a column (beside C1): a column that is
    computed or of type "timestamp" never appears in the generated lists,
    whatever the record holds; and it raises no error whenever the record
    holds a value for it, a CSV "NULL" included, or it is nullable, or it has
    a default. *)
Theorem server_managed_column_skipped (schema : Schema)
    (entries : list (string * ColumnSchema)) (computeColumns : list string)
    (ext : Format) (records : Record_) (col : string) (colSchema : ColumnSchema) :
  entries ≡ₚ map_to_list schema ->
  schema !! col = Some colSchema ->
  DataType colSchema = "timestamp" \/ col ∈ computeColumns ->
  (forall columns values,
      project computeColumns ext records entries = Projected columns values ->
      "[" +:+ col +:+ "]" ∉ columns) /\
  ((is_Some (records !! col) \/
    IsNullable colSchema = "YES" \/ Valid (ColumnDefault colSchema) = true) ->
   loopBody computeColumns ext records col colSchema = Continue /\
   forall c origin,
     project computeColumns ext records entries = Fatal c origin -> c <> col).
Proof.
  intros Hvisit Hcol Hmanaged.
  apply serverManaged_true in Hmanaged.
  pose proof (loopBody_server_managed computeColumns ext records col colSchema Hmanaged)
    as Hbody.
  split.
  - intros columns values Hproj Hin.
    destruct (column_in_result schema entries Hvisit computeColumns ext records
                columns values col colSchema Hproj Hcol Hin) as [val Hval].
    rewrite Hbody in Hval.
    destruct (records !! col); [discriminate|].
    destruct (required colSchema); discriminate.
  - intros Hfree.
    assert (Hcontinue : loopBody computeColumns ext records col colSchema = Continue).
    { rewrite Hbody. destruct (records !! col) as [val|] eqn:E; [reflexivity|].
      destruct Hfree as [[val Hval] | Hopt]; [discriminate|].
      apply required_false in Hopt. now rewrite Hopt. }
    split; [exact Hcontinue|].
    now apply (continue_omits schema entries Hvisit computeColumns ext records col colSchema).
Qed.

Lemma server_managed_column_skipped_witness :
  let schema := schemaOf [idColumn; nameColumn; fullNameColumn] in
  let records : Record_ :=
    {[ "id" := AnyFloat64 float64_1; "full_name" := AnyString "x" ]} in
  project ["full_name"] Json records (map_to_list schema)
    = Projected ["[id]"] [AnyFloat64 float64_1] /\
  ("[full_name]" ∉ ["[id]"]) /\
  loopBody ["full_name"] Json records "full_name" fullNameColumn = Continue.
Proof.
  intros schema records.
  assert (Hproj : project ["full_name"] Json records (map_to_list schema)
                  = Projected ["[id]"] [AnyFloat64 float64_1]) by (vm_compute; reflexivity).
  destruct (server_managed_column_skipped schema (map_to_list schema) ["full_name"]
              Json records "full_name" fullNameColumn) as [Hout Hquiet].
  - reflexivity.
  - vm_compute. reflexivity.
  - right. apply list_elem_of_In. simpl. now left.
  - split; [exact Hproj | split].
    + exact (Hout _ _ Hproj).
    + apply Hquiet. left. vm_compute. eauto.
Defined.

(** C3: a column that is nullable or has a default, when the record lacks
    it or a CSV record holds the cell "NULL" for it, is left out of the
    generated lists and is not the cause of an error. *)
Theorem optional_column_omitted (schema : Schema)
    (entries : list (string * ColumnSchema)) (computeColumns : list string)
    (ext : Format) (records : Record_) (col : string) (colSchema : ColumnSchema) :
  entries ≡ₚ map_to_list schema ->
  schema !! col = Some colSchema ->
  IsNullable colSchema = "YES" \/ Valid (ColumnDefault colSchema) = true ->
  records !! col = None \/ (ext = Csv /\ records !! col = Some (AnyString "NULL")) ->
  loopBody computeColumns ext records col colSchema = Continue /\
  (forall columns values,
      project computeColumns ext records entries = Projected columns values ->
      "[" +:+ col +:+ "]" ∉ columns) /\
  (forall c origin,
      project computeColumns ext records entries = Fatal c origin -> c <> col).
Proof.
  intros Hvisit Hcol Hopt Hfield.
  apply required_false in Hopt.
  assert (Hcontinue : loopBody computeColumns ext records col colSchema = Continue).
  { unfold loopBody. destruct Hfield as [-> | [-> ->]].
    - now rewrite Hopt.
    - destruct (serverManaged computeColumns col colSchema); [reflexivity|].
      simpl. now rewrite Hopt. }
  split; [exact Hcontinue|].
  now apply (continue_omits schema entries Hvisit computeColumns ext records col colSchema).
Qed.

Lemma optional_column_omitted_witness :
  let schema := schemaOf [idColumn; nameColumn] in
  let records : Record_ := {[ "id" := AnyInt 2; "name" := AnyString "NULL" ]} in
  project [] Csv records (map_to_list schema) = Projected ["[id]"] [AnyInt 2] /\
  "[name]" ∉ ["[id]"].
Proof.
  intros schema records.
  assert (Hproj : project [] Csv records (map_to_list schema)
                  = Projected ["[id]"] [AnyInt 2]) by (vm_compute; reflexivity).
  split; [exact Hproj|].
  destruct (optional_column_omitted schema (map_to_list schema) [] Csv records
              "name" nameColumn) as (_ & Hout & _).
  - reflexivity.
  - vm_compute. reflexivity.
  - left. reflexivity.
  - right. split; [reflexivity | vm_compute; reflexivity].
  - exact (Hout _ _ Hproj).
Defined.

(** ** Required columns *)

Lemma loopBody_required_absent (computeColumns : list string) (ext : Format)
    (records : Record_) (col : string) (colSchema : ColumnSchema) :
  required colSchema = true ->
  records !! col = None ->
  loopBody computeColumns ext records col colSchema = LogFatalf Json.
Proof.
  intros Hreq Hnone. unfold loopBody. now rewrite Hnone, Hreq.
Qed.

Lemma loopBody_required_null (computeColumns : list string)
    (records : Record_) (col : string) (colSchema : ColumnSchema) :
  required colSchema = true ->
  records !! col = Some (AnyString "NULL") ->
  serverManaged computeColumns col colSchema = false ->
  loopBody computeColumns Csv records col colSchema = LogFatalf Csv.
Proof.
  intros Hreq Hnull Hfree. unfold loopBody. now rewrite Hnull, Hfree, Hreq.
Qed.

Lemma required_true (colSchema : ColumnSchema) :
  required colSchema = true <->
  IsNullable colSchema <> "YES" /\ Valid (ColumnDefault colSchema) = false.
Proof.
  unfold required.
  destruct (String.eqb_spec (IsNullable colSchema) "YES") as [-> | Hne];
    destruct (Valid (ColumnDefault colSchema)); simpl; split; auto;
    intros [H1 H2]; congruence.
Qed.

(** The body is fatal only on a required column that the record lacks, or
    whose CSV cell is "NULL" while the column is not managed by the server. *)
Lemma loopBody_LogFatalf_inv (computeColumns : list string) (ext : Format)
    (records : Record_) (col : string) (colSchema : ColumnSchema) (origin : Format) :
  loopBody computeColumns ext records col colSchema = LogFatalf origin ->
  required colSchema = true /\
  ((origin = Json /\ records !! col = None) \/
   (origin = Csv /\ ext = Csv /\ records !! col = Some (AnyString "NULL") /\
    serverManaged computeColumns col colSchema = false)).
Proof.
  unfold loopBody. destruct (records !! col) as [val|].
  - destruct (serverManaged computeColumns col colSchema); [discriminate|].
    destruct (bool_decide (ext = Csv)) eqn:Eext; simpl.
    + apply bool_decide_eq_true in Eext.
      destruct val; simpl; try discriminate.
      destruct (String.eqb_spec s "NULL") as [-> | Hne]; [|discriminate].
      destruct (required colSchema); [|discriminate].
      intros [= <-]. split; [reflexivity | right; auto].
    + discriminate.
  - destruct (required colSchema); [|discriminate].
    intros [= <-]. split; [reflexivity | left; auto].
Qed.

(** C2, as stated: a required column of type "timestamp" whose CSV cell is
    "NULL" does not stop the projection; the column is skipped. *)
Lemma null_timestamp_cell_is_skipped :
  let schema := schemaOf [nameColumn; tsColumn] in
  let records : Record_ := {[ "name" := AnyString "Alice"; "ts" := AnyString "NULL" ]} in
  schema !! "ts" = Some tsColumn /\
  required tsColumn = true /\
  records !! "ts" = Some (AnyString "NULL") /\
  project [] Csv records (map_to_list schema)
    = Projected ["[name]"] [AnyString "Alice"].
Proof. vm_compute. repeat split. Qed.

(** ** Consistency of the two slices *)

(** C8, at the failing input: every field of the record that is neither
    computed nor a timestamp is accepted by the schema, yet the projection
    produces no lists: it stops at the non-nullable timestamp column the
    record does not hold, which the required-field test of the [else] branch
    does not skip. *)
Lemma accepted_fields_without_result :
  let schema := schemaOf [idColumn; tsColumn] in
  let records : Record_ := {[ "id" := AnyFloat64 float64_1 ]} in
  (forall col colSchema,
      schema !! col = Some colSchema ->
      serverManaged [] col colSchema = false ->
      fieldAccepted Json colSchema (records !! col)) /\
  project [] Json records (map_to_list schema) = Fatal "ts" Json.
Proof.
  intros schema records. split; [|vm_compute; reflexivity].
  intros col cs Hcol Hfree. each_column Hcol.
  - vm_compute. intros (H & _). discriminate.
  - vm_compute in Hfree. discriminate.
Qed.

(** Where the code does produce the lists (beside C8): when every field
    that is neither computed nor a timestamp is accepted by its column, and
    every computed or timestamp column the record lacks is nullable or has a
    default, the projection produces a column list and a value list of equal
    length in which each position holds a bracketed column and the record's
    value for that column. *)
Theorem projection_lists_consistent (schema : Schema)
    (entries : list (string * ColumnSchema)) (computeColumns : list string)
    (ext : Format) (records : Record_) :
  entries ≡ₚ map_to_list schema ->
  (forall col colSchema,
      schema !! col = Some colSchema ->
      serverManaged computeColumns col colSchema = false ->
      fieldAccepted ext colSchema (records !! col)) ->
  (forall col colSchema,
      schema !! col = Some colSchema ->
      serverManaged computeColumns col colSchema = true ->
      records !! col = None ->
      IsNullable colSchema = "YES" \/ Valid (ColumnDefault colSchema) = true) ->
  exists columns values,
    project computeColumns ext records entries = Projected columns values /\
    List.length columns = List.length values /\
    forall (i : nat) (column : string),
      columns !! i = Some column ->
      exists col val,
        column = "[" +:+ col +:+ "]" /\ is_Some (schema !! col) /\
        values !! i = Some val /\ records !! col = Some val.
Proof.
  intros Hvisit Hfields Hmanaged.
  destruct (project_succeeds schema entries Hvisit computeColumns ext records)
    as (columns & values & Hproj).
  { intros col cs Hcol origin Hfatal.
    apply loopBody_LogFatalf_inv in Hfatal as (Hreq & Hwhy).
    destruct (serverManaged computeColumns col cs) eqn:Hsm.
    - destruct Hwhy as [(_ & Hnone) | (_ & _ & _ & Hfree)]; [|discriminate].
      pose proof (Hmanaged col cs Hcol Hsm Hnone) as Hopt.
      apply required_false in Hopt. congruence.
    - pose proof (Hfields col cs Hcol Hsm) as Hacc. unfold fieldAccepted in Hacc.
      destruct Hwhy as [(_ & Hnone) | (_ & Hext & Hnull & _)].
      + rewrite Hnone in Hacc. congruence.
      + rewrite Hnull in Hacc. apply Hacc. auto. }
  exists columns, values. split; [exact Hproj|].
  exact (result_consistent schema entries Hvisit computeColumns ext records
           columns values Hproj).
Qed.

Lemma projection_lists_consistent_witness :
  let schema := schemaOf [idColumn; nameColumn; fullNameColumn] in
  let records : Record_ :=
    {[ "id" := AnyFloat64 float64_2; "full_name" := AnyString "Alice" ]} in
  exists columns values,
    project ["name"] Json records (map_to_list schema) = Projected columns values /\
    List.length columns = List.length values /\
    forall (i : nat) (column : string),
      columns !! i = Some column ->
      exists col val,
        column = "[" +:+ col +:+ "]" /\ is_Some (schema !! col) /\
        values !! i = Some val /\ records !! col = Some val.
Proof.
  intros schema records.
  apply (projection_lists_consistent schema (map_to_list schema) ["name"] Json records).
  - reflexivity.
  - intros col cs Hcol Hfree. each_column Hcol;
      first [ vm_compute in Hfree; discriminate Hfree
            | vm_compute; intros (H & _); discriminate H ].
  - intros col cs Hcol Hsm Habsent. each_column Hcol;
      first [ vm_compute in Hsm; discriminate Hsm
            | left; reflexivity ].
Defined.

(** ** The statement *)

(** What a loop that writes ", " before every element adds to its
    accumulator. *)
Lemma concat_cons_sep (x : string) (items : list string) :
  String.concat ", " (x :: items) = x +:+ String.concat "" ((fun y => ", " +:+ y) <$> items).
Proof.
  revert x. induction items as [|y items IH]; intros x.
  - simpl. now rewrite append_nil_r.
  - change (String.concat ", " (x :: y :: items))
      with (x +:+ ", " +:+ String.concat ", " (y :: items)).
    rewrite IH. simpl. destruct items; simpl; now rewrite ?append_nil_r, ?append_assoc.
Qed.

Lemma columns_fold_from (items : list string) :
  forall (k : nat) (acc : string),
    0 < k ->
    foldl (fun columnsStr '(i, col) =>
             (if (0 <? i)%nat then columnsStr +:+ ", " else columnsStr) +:+ col)
          acc (imap (fun i col => (k + i, col)) items)
    = acc +:+ String.concat "" ((fun y => ", " +:+ y) <$> items).
Proof.
  induction items as [|x items IH]; intros k acc Hk.
  - simpl. now rewrite append_nil_r.
  - rewrite imap_cons. simpl foldl.
    replace (0 <? k + 0)%nat with true by (symmetry; apply Nat.ltb_lt; lia).
    rewrite (imap_ext _ (fun i col => (S k + i, col))).
    2:{ intros i col _. simpl. f_equal. lia. }
    rewrite IH by lia.
    rewrite fmap_cons.
    destruct items as [|x' items]; simpl; now rewrite ?append_nil_r, ?append_assoc.
Qed.

(** The loop over [columns] builds their join with ", ". *)
Lemma columnsStrLoop_Join (columns : list string) :
  columnsStrLoop columns = strings.Join columns ", ".
Proof.
  unfold columnsStrLoop, strings.Join.
  destruct columns as [|x items]; [reflexivity|].
  rewrite imap_cons. simpl foldl.
  rewrite (imap_ext _ (fun i col => (1 + i, col))) by reflexivity.
  rewrite columns_fold_from by lia.
  now rewrite concat_cons_sep.
Qed.

Lemma placeholders_fold_from (n : nat) :
  forall (k : nat) (acc : string),
    0 < k ->
    foldl (fun placeholders i =>
             (if (0 <? i)%nat then placeholders +:+ ", " else placeholders)
             +:+ ("@p" +:+ fmt.d (i + 1)))
          acc (seq k n)
    = acc +:+ String.concat ""
                ((fun y => ", " +:+ y) <$> ((fun i => "@p" +:+ fmt.d (i + 1)) <$> seq k n)).
Proof.
  induction n as [|n IH]; intros k acc Hk.
  - simpl. now rewrite append_nil_r.
  - simpl seq. simpl foldl.
    replace (0 <? k)%nat with true by (symmetry; apply Nat.ltb_lt; lia).
    rewrite IH by lia. rewrite !fmap_cons.
    destruct n; simpl; now rewrite ?append_nil_r, ?append_assoc.
Qed.

(** The loop over the indices builds "@p1, @p2, ..., @pn". *)
Lemma placeholdersLoop_Join (columns : list string) :
  placeholdersLoop columns = strings.Join (positional (List.length columns)) ", ".
Proof.
  unfold placeholdersLoop, strings.Join, positional.
  rewrite <- seq_shift, <- list_fmap_compose.
  rewrite (list_fmap_ext _ (fun i => "@p" +:+ fmt.d (i + 1)))
    by (intros i x _; simpl; now rewrite Nat.add_1_r).
  destruct (List.length columns) as [|n]; [reflexivity|].
  simpl seq. simpl foldl. rewrite placeholders_fold_from by lia.
  rewrite fmap_cons. now rewrite concat_cons_sep.
Qed.

Lemma insertQuery_shape (tableName : string) (columns : list string) :
  insertQuery tableName columns =
    "INSERT INTO " +:+ tableName +:+ " (" +:+ strings.Join columns ", " +:+
    ") VALUES (" +:+ strings.Join (positional (List.length columns)) ", " +:+ ");".
Proof.
  unfold insertQuery. now rewrite columnsStrLoop_Join, placeholdersLoop_Join.
Qed.

Lemma positional_length (n : nat) : List.length (positional n) = n.
Proof. unfold positional. now rewrite length_fmap, length_seq. Qed.

Lemma positional_lookup (n i : nat) :
  i < n -> positional n !! i = Some ("@p" +:+ fmt.d (i + 1)).
Proof.
  intros Hi. unfold positional. rewrite list_lookup_fmap.
  rewrite lookup_seq_lt by assumption. simpl. now rewrite Nat.add_1_r.
Qed.

Lemma scenario_visits (entries : list (string * ColumnSchema)) :
  entries ≡ₚ map_to_list scenarioSchema ->
  entries = [("id", idColumn); ("name", nameColumn)] \/
  entries = [("name", nameColumn); ("id", idColumn)].
Proof.
  set (l := map_to_list scenarioSchema). vm_compute in l. subst l.
  intros H. symmetry in H. now apply Permutation_length_2_inv in H.
Qed.

(** C6, as stated: when the runtime visits [name] before [id], the
    statement of the scenario lists the columns, and the values, in that
    order. *)
Lemma scenario_statement_follows_visit_order :
  let entries := [("name", nameColumn); ("id", idColumn)] in
  entries ≡ₚ map_to_list scenarioSchema /\
  statementFor "t" false [] Json alice entries
    = Some ("INSERT INTO t ([name], [id]) VALUES (@p1, @p2);",
            [AnyString "Alice"; AnyFloat64 float64_1]) /\
  statementFor "t" false [] Json alice entries
    <> Some ("INSERT INTO t ([id], [name]) VALUES (@p1, @p2);",
             [AnyFloat64 float64_1; AnyString "Alice"]).
Proof.
  intros entries. split; [|split].
  - set (l := map_to_list scenarioSchema). vm_compute in l. subst l. apply perm_swap.
  - vm_compute. reflexivity.
  - vm_compute. discriminate.
Qed.

(** C6 (amended): for a non-empty projection the INSERT is exactly
    "INSERT INTO <table> (<columns>) VALUES (@p1, ..., @pn);", the columns
    being bracketed schema columns joined by ", " and the placeholders
    numbered from 1, one per column, next to as many values; it is the whole
    statement for a table without identity column.  In the scenario of the
    table {id, name} and the record {"id": 1, "name": "Alice"} the statement
    is "INSERT INTO t ([id], [name]) VALUES (@p1, @p2);" with values
    [1, "Alice"] when the map is visited id first, and
    "INSERT INTO t ([name], [id]) VALUES (@p1, @p2);" with ["Alice", 1] when
    it is visited name first; no other outcome exists. *)
Theorem insert_statement_shape :
  (forall (schema : Schema) (entries : list (string * ColumnSchema))
          (computeColumns : list string) (ext : Format) (records : Record_)
          (tableName : string) (isTableIdentity : bool)
          (columns : list string) (values : list any),
      entries ≡ₚ map_to_list schema ->
      project computeColumns ext records entries = Projected columns values ->
      columns <> [] ->
      let insert :=
        "INSERT INTO " +:+ tableName +:+ " (" +:+ strings.Join columns ", " +:+
        ") VALUES (" +:+ strings.Join (positional (List.length columns)) ", " +:+ ");" in
      statementFor tableName isTableIdentity computeColumns ext records entries
        = Some (if isTableIdentity
                then identityON tableName +:+ insert +:+ identityOFF tableName
                else insert,
                values) /\
      List.length (positional (List.length columns)) = List.length columns /\
      List.length values = List.length columns /\
      (forall i, i < List.length columns ->
                 positional (List.length columns) !! i = Some ("@p" +:+ fmt.d (i + 1))) /\
      (forall column, column ∈ columns ->
                      exists col, column = "[" +:+ col +:+ "]" /\ is_Some (schema !! col))) /\
  statementFor "t" false [] Json alice [("id", idColumn); ("name", nameColumn)]
    = Some ("INSERT INTO t ([id], [name]) VALUES (@p1, @p2);",
            [AnyFloat64 float64_1; AnyString "Alice"]) /\
  statementFor "t" false [] Json alice [("name", nameColumn); ("id", idColumn)]
    = Some ("INSERT INTO t ([name], [id]) VALUES (@p1, @p2);",
            [AnyString "Alice"; AnyFloat64 float64_1]) /\
  (forall entries,
      entries ≡ₚ map_to_list scenarioSchema ->
      entries = [("id", idColumn); ("name", nameColumn)] \/
      entries = [("name", nameColumn); ("id", idColumn)]).
Proof.
  split; [| split; [vm_compute; reflexivity | split; [vm_compute; reflexivity |]]].
  - intros schema entries computeColumns ext records tableName isTableIdentity
      columns values Hvisit Hproj Hne insert.
    pose proof (result_consistent schema entries Hvisit computeColumns ext records
                  columns values Hproj) as [Hlen Hpos].
    split; [| split; [apply positional_length | split; [now symmetry | split]]].
    + unfold statementFor. rewrite Hproj.
      destruct columns as [|c columns]; [congruence|].
      change (List.length (c :: columns) =? 0)%nat with false. cbv iota.
      unfold buildQuery. rewrite insertQuery_shape. reflexivity.
    + intros i Hi. now apply positional_lookup.
    + intros column Hin.
      apply list_elem_of_lookup in Hin as [i Hi].
      destruct (Hpos i column Hi) as (col & val & -> & Hschema & _).
      now exists col.
  - exact scenario_visits.
Qed.

Lemma insert_statement_shape_witness :
  statementFor "t" false [] Json alice (map_to_list scenarioSchema)
    = Some ("INSERT INTO t ([id], [name]) VALUES (@p1, @p2);",
            [AnyFloat64 float64_1; AnyString "Alice"]).
Proof.
  destruct insert_statement_shape as [Hshape _].
  destruct (Hshape scenarioSchema (map_to_list scenarioSchema) [] Json alice "t" false
              ["[id]"; "[name]"] [AnyFloat64 float64_1; AnyString "Alice"])
    as [Hstatement _].
  - reflexivity.
  - vm_compute. reflexivity.
  - discriminate.
  - exact Hstatement.
Defined.

(** *** The statements of the batch *)

Lemma Contains_string_of_uint (u : Decimal.uint) :
  strings.Contains (NilEmpty.string_of_uint u) ";" = false.
Proof. induction u; simpl; assumption || reflexivity. Qed.

Lemma Contains_d (n : nat) : strings.Contains (fmt.d n) ";" = false.
Proof.
  unfold fmt.d, NilZero.string_of_uint.
  destruct (Nat.to_uint n) eqn:E; try reflexivity;
    rewrite <- E; apply Contains_string_of_uint.
Qed.

Lemma Contains_Join (elems : list string) :
  Forall (fun s => strings.Contains s ";" = false) elems ->
  strings.Contains (strings.Join elems ", ") ";" = false.
Proof.
  unfold strings.Join. induction elems as [|x elems IH]; intros Hall; [reflexivity|].
  inversion Hall as [|? ? Hx Hrest]; subst.
  destruct elems as [|y elems]; [exact Hx|].
  change (String.concat ", " (x :: y :: elems))
    with (x +:+ ", " +:+ String.concat ", " (y :: elems)).
  rewrite !Contains_append, Hx, (IH Hrest). reflexivity.
Qed.

Lemma Contains_positional (n : nat) :
  Forall (fun s => strings.Contains s ";" = false) (positional n).
Proof.
  unfold positional. apply Forall_fmap, Forall_forall. intros i _. simpl.
  change ("@p" +:+ fmt.d i) with (String "@" (String "p" (fmt.d i))).
  simpl. apply Contains_d.
Qed.

(** The INSERT without its final semicolon. *)
Lemma insertQuery_statement (tableName : string) (columns : list string) :
  strings.Contains tableName ";" = false ->
  Forall (fun column => strings.Contains column ";" = false) columns ->
  exists body,
    insertQuery tableName columns = body +:+ ";" /\
    strings.Contains body ";" = false /\
    body = "INSERT INTO " +:+ tableName +:+ " (" +:+ strings.Join columns ", " +:+
           ") VALUES (" +:+ strings.Join (positional (List.length columns)) ", " +:+ ")".
Proof.
  intros Ht Hcols. eexists. split; [| split; [| reflexivity]].
  - rewrite insertQuery_shape. rewrite !append_assoc. reflexivity.
  - rewrite !Contains_append, Ht, (Contains_Join columns Hcols),
      (Contains_Join _ (Contains_positional _)). reflexivity.
Qed.

(** C7: for a table with an identity column the statement of each row is
    one "SET IDENTITY_INSERT <table> ON;", then the INSERT into that table,
    then one "SET IDENTITY_INSERT <table> OFF;"; for a table without, it is
    the INSERT alone.  When neither the table name nor a column holds a
    semicolon, cutting the text at its semicolons gives exactly these three
    statements, in this order, for the first, and the single INSERT for the
    second. *)
Theorem identity_toggles (tableName : string) (columns : list string) :
  (buildQuery tableName true columns =
     ("SET IDENTITY_INSERT " +:+ tableName +:+ " ON;") +:+
     insertQuery tableName columns +:+
     ("SET IDENTITY_INSERT " +:+ tableName +:+ " OFF;") /\
   buildQuery tableName false columns = insertQuery tableName columns /\
   insertQuery tableName columns =
     "INSERT INTO " +:+ tableName +:+ " (" +:+ strings.Join columns ", " +:+
     ") VALUES (" +:+ strings.Join (positional (List.length columns)) ", " +:+ ");") /\
  (strings.Contains tableName ";" = false ->
   Forall (fun column => strings.Contains column ";" = false) columns ->
   let insert :=
     "INSERT INTO " +:+ tableName +:+ " (" +:+ strings.Join columns ", " +:+
     ") VALUES (" +:+ strings.Join (positional (List.length columns)) ", " +:+ ")" in
   strings.Split (buildQuery tableName true columns) ";" =
     [ "SET IDENTITY_INSERT " +:+ tableName +:+ " ON"; insert;
       "SET IDENTITY_INSERT " +:+ tableName +:+ " OFF"; "" ] /\
   strings.Split (buildQuery tableName false columns) ";" = [ insert; "" ]).
Proof.
  split.
  { split; [reflexivity | split; [reflexivity | apply insertQuery_shape]]. }
  intros Ht Hcols insert.
  destruct (insertQuery_statement tableName columns Ht Hcols)
    as (body & Hinsert & Hbody & Hshape).
  fold insert in Hshape. subst body.
  assert (Hon : strings.Contains ("SET IDENTITY_INSERT " +:+ tableName +:+ " ON") ";"
                = false).
  { rewrite !Contains_append, Ht. reflexivity. }
  assert (Hoff : strings.Contains ("SET IDENTITY_INSERT " +:+ tableName +:+ " OFF") ";"
                 = false).
  { rewrite !Contains_append, Ht. reflexivity. }
  split.
  - unfold buildQuery, identityON, identityOFF. rewrite Hinsert.
    replace (("SET IDENTITY_INSERT " +:+ tableName +:+ " ON;") +:+
             (insert +:+ ";") +:+ "SET IDENTITY_INSERT " +:+ tableName +:+ " OFF;")
      with (("SET IDENTITY_INSERT " +:+ tableName +:+ " ON") +:+
            String ";" (insert +:+
            String ";" (("SET IDENTITY_INSERT " +:+ tableName +:+ " OFF") +:+
            String ";" "")))
      by (rewrite !append_assoc; reflexivity).
    rewrite !Split_cons by assumption. reflexivity.
  - unfold buildQuery. rewrite Hinsert.
    change (insert +:+ ";") with (insert +:+ String ";" "").
    rewrite Split_cons by assumption. reflexivity.
Qed.

Lemma identity_toggles_witness :
  strings.Split (buildQuery "t" true ["[id]"; "[name]"]) ";" =
    [ "SET IDENTITY_INSERT t ON"; "INSERT INTO t ([id], [name]) VALUES (@p1, @p2)";
      "SET IDENTITY_INSERT t OFF"; "" ] /\
  strings.Split (buildQuery "t" false ["[id]"; "[name]"]) ";" =
    [ "INSERT INTO t ([id], [name]) VALUES (@p1, @p2)"; "" ].
Proof.
  destruct (identity_toggles "t" ["[id]"; "[name]"]) as [_ Hsplit].
  apply Hsplit.
  - reflexivity.
  - repeat constructor.
Defined.

Example identity_statement :
  buildQuery "t" true ["[id]"; "[name]"] =
    "SET IDENTITY_INSERT t ON;INSERT INTO t ([id], [name]) VALUES (@p1, @p2);SET IDENTITY_INSERT t OFF;".
Proof. vm_compute. reflexivity. Qed.

(** A record without the nullable column: only [id] is inserted. *)
Example scenario_name_absent :
  statementFor "t" false [] Json ({[ "id" := AnyFloat64 float64_2 ]} : Record_)
    (map_to_list scenarioSchema)
  = Some ("INSERT INTO t ([id]) VALUES (@p1);", [AnyFloat64 float64_2]).
Proof. vm_compute. reflexivity. Qed.

(** A value for a computed column is dropped from the statement. *)
Example scenario_computed_dropped :
  statementFor "t" false ["full_name"] Json
    ({[ "id" := AnyFloat64 float64_1; "name" := AnyString "Alice";
        "full_name" := AnyString "x" ]} : Record_)
    (map_to_list (schemaOf [idColumn; nameColumn; fullNameColumn]))
  = Some ("INSERT INTO t ([id], [name]) VALUES (@p1, @p2);",
          [AnyFloat64 float64_1; AnyString "Alice"]).
Proof. vm_compute. reflexivity. Qed.

(** ** [strconv.Atoi] accepts exactly the base-10 spellings *)

Lemma digit_spec (c : ascii) (d : Z) :
  strconv.digit c = Some d <-> (0 <= d <= 9)%Z /\ c = digitChar d.
Proof.
  unfold strconv.digit, digitChar. split.
  - destruct (_ && _) eqn:E; [|discriminate]. intros [= <-].
    apply andb_true_iff in E as [Hlo Hhi].
    apply Z.leb_le in Hlo, Hhi. split; [lia|].
    replace (48 + (Z.of_N (N_of_ascii c) - 48))%Z with (Z.of_N (N_of_ascii c)) by lia.
    now rewrite N2Z.id, ascii_N_embedding.
  - intros [Hd ->].
    rewrite N_ascii_embedding by lia.
    rewrite Z2N.id by lia.
    replace ((48 <=? 48 + d)%Z && (48 + d <=? 57)%Z) with true
      by (symmetry; apply andb_true_iff; split; apply Z.leb_le; lia).
    f_equal. lia.
Qed.

Lemma digitChar_not_sign (d : Z) :
  (0 <= d <= 9)%Z ->
  Ascii.eqb (digitChar d) "-" = false /\ Ascii.eqb (digitChar d) "+" = false.
Proof.
  intros Hd. unfold digitChar.
  split; apply Ascii.eqb_neq; intros H; apply (f_equal N_of_ascii) in H;
    rewrite N_ascii_embedding in H by lia; simpl in H; lia.
Qed.

Lemma digits_spec (s : string) :
  forall (acc v : Z),
    strconv.digits s acc = Some v <->
    exists ds, Forall (fun d => 0 <= d <= 9)%Z ds /\ s = numeral ds /\
               v = foldl (fun a d => a * 10 + d)%Z acc ds.
Proof.
  induction s as [|c s IH]; intros acc v; simpl.
  - split.
    + intros [= <-]. exists []. now repeat split.
    + intros (ds & _ & Hs & ->). destruct ds; [reflexivity | discriminate].
  - split.
    + destruct (strconv.digit c) as [d|] eqn:E; [|discriminate].
      intros H. apply IH in H as (ds & Hall & -> & ->).
      apply digit_spec in E as [Hd ->].
      exists (d :: ds). split; [now constructor | split; reflexivity].
    + intros (ds & Hall & Hs & ->).
      destruct ds as [|d ds]; [discriminate|].
      simpl in Hs. injection Hs as -> ->.
      inversion Hall as [|? ? Hd Hrest]; subst.
      rewrite (proj2 (digit_spec (digitChar d) d)) by now split.
      apply IH. now exists ds.
Qed.

Lemma numeral_nonempty (ds : list Z) : ds <> [] -> numeral ds <> "".
Proof. destruct ds; [congruence | discriminate]. Qed.

Lemma Atoi_cons (c : ascii) (r : string) :
  strconv.Atoi (String c r) =
    match (if Ascii.eqb c "-" || Ascii.eqb c "+" then r else String c r) with
    | "" => None
    | body =>
        match strconv.digits body 0 with
        | None => None
        | Some un =>
            let n := if Ascii.eqb c "-" then (- un)%Z else un in
            if ((strconv.minInt <=? n) && (n <=? strconv.maxInt))%Z then Some n else None
        end
    end.
Proof.
  unfold strconv.Atoi.
  destruct (Ascii.eqb c "-" || Ascii.eqb c "+"); [destruct r|]; reflexivity.
Qed.

Lemma Atoi_spec (s : string) (n : Z) :
  strconv.Atoi s = Some n <-> base10 s n.
Proof.
  unfold base10. split.
  - destruct s as [|c r]; [discriminate|]. unfold strconv.Atoi.
    destruct (Ascii.eqb c "-") eqn:Eminus; simpl orb; cbv iota.
    { apply Ascii.eqb_eq in Eminus. subst c.
      destruct r as [|c' r']; [discriminate|].
      destruct (strconv.digits (String c' r') 0) as [un|] eqn:E; [|discriminate].
      destruct (_ && _) eqn:Erange; [|discriminate]. intros [= <-].
      apply digits_spec in E as (ds & Hall & Hr & ->).
      apply andb_true_iff in Erange as [Hlo Hhi]. apply Z.leb_le in Hlo, Hhi.
      exists "-", ds. repeat split; auto.
      - intros ->. discriminate.
      - now rewrite Hr. }
    destruct (Ascii.eqb c "+") eqn:Eplus; cbv iota.
    { apply Ascii.eqb_eq in Eplus. subst c.
      destruct r as [|c' r']; [discriminate|].
      destruct (strconv.digits (String c' r') 0) as [un|] eqn:E; [|discriminate].
      destruct (_ && _) eqn:Erange; [|discriminate]. intros [= <-].
      apply digits_spec in E as (ds & Hall & Hr & ->).
      apply andb_true_iff in Erange as [Hlo Hhi]. apply Z.leb_le in Hlo, Hhi.
      exists "+", ds. repeat split; auto.
      - intros ->. discriminate.
      - now rewrite Hr. }
    destruct (strconv.digits (String c r) 0) as [un|] eqn:E; [|discriminate].
    destruct (_ && _) eqn:Erange; [|discriminate]. intros [= <-].
    apply digits_spec in E as (ds & Hall & Hr & ->).
    apply andb_true_iff in Erange as [Hlo Hhi]. apply Z.leb_le in Hlo, Hhi.
    exists "", ds. repeat split; auto.
    intros ->. discriminate.
  - intros (sign & ds & Hsign & Hne & Hall & -> & Hn & Hrange).
    destruct ds as [|d ds]; [congruence|].
    inversion Hall as [|? ? Hd Hrest]; subst x l.
    assert (Hdigits : strconv.digits (numeral (d :: ds)) 0
                      = Some (foldl (fun a x => a * 10 + x)%Z 0%Z (d :: ds))).
    { apply digits_spec. now exists (d :: ds). }
    destruct (digitChar_not_sign d Hd) as [Hnm Hnp].
    set (n' := n) in *.
    assert (Hbody : forall neg : bool,
               (if neg then - valueOf (d :: ds) else valueOf (d :: ds))%Z = n' ->
               match numeral (d :: ds) with
               | "" => None
               | _ =>
                   match strconv.digits (numeral (d :: ds)) 0 with
                   | None => None
                   | Some un =>
                       let n := if neg then (- un)%Z else un in
                       if ((strconv.minInt <=? n) && (n <=? strconv.maxInt))%Z
                       then Some n else None
                   end
               end = Some n').
    { intros neg Hneg. rewrite Hdigits. fold (valueOf (d :: ds)).
      cbv zeta. rewrite Hneg.
      replace ((strconv.minInt <=? n')%Z && (n' <=? strconv.maxInt)%Z) with true
        by (symmetry; apply andb_true_iff; split; apply Z.leb_le; lia).
      reflexivity. }
    destruct Hsign as [-> | [-> | ->]].
    + change ("" +:+ numeral (d :: ds)) with (String (digitChar d) (numeral ds)).
      rewrite Atoi_cons, Hnm, Hnp. apply (Hbody false). now rewrite Hn.
    + change ("+" +:+ numeral (d :: ds)) with (String "+" (numeral (d :: ds))).
      rewrite Atoi_cons. apply (Hbody false). now rewrite Hn.
    + change ("-" +:+ numeral (d :: ds)) with (String "-" (numeral (d :: ds))).
      rewrite Atoi_cons. apply (Hbody true). now rewrite Hn.
Qed.

Example Atoi_NULL : strconv.Atoi "NULL" = None.
Proof. reflexivity. Qed.

Example Atoi_42 : strconv.Atoi "-42" = Some (-42)%Z.
Proof. reflexivity. Qed.

Example Atoi_zip : strconv.Atoi "00501" = Some 501%Z.
Proof. reflexivity. Qed.

Example Atoi_out_of_range : strconv.Atoi "9223372036854775808" = None.
Proof. reflexivity. Qed.

Lemma cellValue_int (cell : string) (n : Z) :
  base10 cell n -> cellValue cell = AnyInt n.
Proof.
  intros H. apply Atoi_spec in H. unfold cellValue. now rewrite H.
Qed.

Lemma cellValue_string (cell : string) :
  (forall n, ~ base10 cell n) -> cellValue cell = AnyString cell.
Proof.
  intros H. unfold cellValue.
  destruct (strconv.Atoi cell) as [n|] eqn:E; [|reflexivity].
  apply Atoi_spec in E. now destruct (H n).
Qed.

(** ** The CSV loop *)

Lemma csvRow_zip (headers : list string) :
  forall (record : list string) (i : nat) (row : Record_),
    List.length headers + i <= List.length record ->
    csvRow headers record i row =
      Return (foldl (fun row '(header, cell) => <[header := cellValue cell]> row) row
                    (zip headers (drop i record))).
Proof.
  induction headers as [|header headers IH]; intros record i row Hlen.
  - reflexivity.
  - simpl in Hlen. simpl csvRow. unfold elemAt.
    destruct (record !! i) as [cell|] eqn:E.
    2:{ apply lookup_ge_None in E. lia. }
    change (Return cell ≫= ?k) with (k cell). cbv beta.
    rewrite IH by lia.
    now rewrite (drop_S record cell i E).
Qed.

Lemma csvRow_rowOf (headers record : list string) :
  List.length headers <= List.length record ->
  csvRow headers record 0 ∅ = Return (rowOf headers record).
Proof.
  intros Hlen. rewrite csvRow_zip by lia. reflexivity.
Qed.

(** A record that is shorter than the header line stops the loop with an
    index out of range. *)
Lemma csvRow_short (headers : list string) :
  forall (record : list string) (i : nat) (row : Record_),
    List.length record < List.length headers + i ->
    i <= List.length record ->
    csvRow headers record i row =
      Panics (IndexOutOfRange (List.length record) (List.length record)).
Proof.
  induction headers as [|header headers IH]; intros record i row Hlen Hi.
  - simpl in Hlen. lia.
  - simpl in Hlen. simpl csvRow. unfold elemAt.
    destruct (record !! i) as [cell|] eqn:E.
    + change (Return cell ≫= ?k) with (k cell). cbv beta.
      apply lookup_lt_Some in E. apply IH; lia.
    + apply lookup_ge_None in E.
      replace i with (List.length record) by lia. reflexivity.
Qed.

Lemma fold_insert_notin (l : list (string * string)) :
  forall (row : Record_) (k : string),
    k ∉ l.*1 ->
    foldl (fun row '(header, cell) => <[header := cellValue cell]> row) row l !! k
    = row !! k.
Proof.
  induction l as [|[h c] l IH]; intros row k Hk; [reflexivity|].
  simpl in *. apply not_elem_of_cons in Hk as [Hne Hk].
  rewrite IH by assumption. now apply lookup_insert_ne.
Qed.

Lemma fold_insert_last (l : list (string * string)) :
  forall (row : Record_) (j : nat) (h c : string),
    l !! j = Some (h, c) ->
    h ∉ (drop (S j) l).*1 ->
    foldl (fun row '(header, cell) => <[header := cellValue cell]> row) row l !! h
    = Some (cellValue c).
Proof.
  induction l as [|[h' c'] l IH]; intros row j h c Hj Hlast; [discriminate|].
  destruct j as [|j]; simpl in *.
  - injection Hj as -> ->. rewrite drop_0 in Hlast.
    rewrite fold_insert_notin by assumption. apply lookup_insert_eq.
  - now apply (IH _ j).
Qed.

Lemma rowOf_lookup (headers record : list string) (i : nat) (header cell : string) :
  headers !! i = Some header ->
  record !! i = Some cell ->
  header ∉ drop (S i) headers ->
  rowOf headers record !! header = Some (cellValue cell).
Proof.
  intros Hh Hc Hlast. unfold rowOf.
  apply (fold_insert_last _ _ i).
  - rewrite lookup_zip_with, Hh. simpl. now rewrite Hc.
  - rewrite (zip_with_drop pair (S i) headers record). intros Hin. apply Hlast.
    apply list_elem_of_fmap in Hin as ([h c] & -> & Hin).
    now apply elem_of_zip_l in Hin.
Qed.

Lemma rowOf_lookup_other (headers record : list string) (k : string) :
  k ∉ headers -> rowOf headers record !! k = None.
Proof.
  intros Hk. unfold rowOf. rewrite fold_insert_notin; [apply lookup_empty|].
  intros Hin. apply Hk.
  apply list_elem_of_fmap in Hin as ([h c] & -> & Hin).
  now apply elem_of_zip_l in Hin.
Qed.

(** Every line read before the end of the input adds its record. *)
Lemma csvLoop_rows (headers : list string) (rows : list (list string)) :
  forall allRecords,
    Forall (fun record => List.length headers <= List.length record) rows ->
    csvLoop headers (inl <$> rows) allRecords =
      Return (allRecords ++ (rowOf headers <$> rows)).
Proof.
  induction rows as [|record rows IH]; intros allRecords Hall.
  - simpl. now rewrite app_nil_r.
  - inversion Hall as [|? ? Hlen Hrest]; subst.
    rewrite fmap_cons. simpl csvLoop. rewrite csvRow_rowOf by assumption.
    change (Return ?r ≫= ?k) with (k r). cbv beta.
    rewrite IH by assumption. rewrite fmap_cons. now rewrite <- app_assoc.
Qed.

(** An error other than the end of the input makes the loop panic. *)
Lemma csvLoop_error (headers : list string) (rows : list (list string))
    (msg : string) (rest : Reader) :
  forall allRecords,
    Forall (fun record => List.length headers <= List.length record) rows ->
    csvLoop headers ((inl <$> rows) ++ inr (errorString msg) :: rest) allRecords =
      Panics (PanicError (errorString msg)).
Proof.
  induction rows as [|record rows IH]; intros allRecords Hall.
  - reflexivity.
  - inversion Hall as [|? ? Hlen Hrest]; subst.
    rewrite fmap_cons. simpl csvLoop. rewrite csvRow_rowOf by assumption.
    change (Return ?r ≫= ?k) with (k r). cbv beta.
    now apply IH.
Qed.

(** ** Sequencing of statements *)

Lemma bind_ok {A B} (m : M A) (k : A -> M B) (w w' : World) (a : A) :
  m w = (inl a, w') -> (m ≫= k) w = k a w'.
Proof. intros H. unfold mbind, M_bind. now rewrite H. Qed.

Lemma bind_halt {A B} (m : M A) (k : A -> M B) (w w' : World) (h : Halt) :
  m w = (inr h, w') -> (m ≫= k) w = (inr h, w').
Proof. intros H. unfold mbind, M_bind. now rewrite H. Qed.

Lemma checked_ok {T} (variant : Variant) (errorCode : AppExitCode) (v : T) (w : World) :
  checked variant errorCode (inl v) w = (inl v, w).
Proof. destruct variant; reflexivity. Qed.

Lemma readRecords_csv (variant : Variant) (env : Env) (filePath : string)
    (headers : list string) (rows : list (list string)) (w : World) :
  os_Open env filePath = inl (inl headers :: (inl <$> rows)) ->
  Forall (fun record => List.length headers <= List.length record) rows ->
  readRecords variant env filePath Csv w = (inl (rowOf headers <$> rows), w).
Proof.
  intros Hopen Hall. unfold readRecords. rewrite Hopen.
  erewrite bind_ok by apply checked_ok. unfold Read. cbv iota beta.
  erewrite bind_ok by apply checked_ok.
  rewrite csvLoop_rows by assumption. reflexivity.
Qed.

(** C9: the first line read is the header line; each later line becomes
    one record, in file order, which maps the header at each position to the
    cell at that position, stored as an [int] exactly when the cell is the
    base-10 spelling of one and as the string itself otherwise (so "NULL"
    stays the string "NULL"); the end of the input ends the sequence and
    nothing is reported. *)
Theorem csv_reader (variant : Variant) (env : Env) (filePath : string)
    (headers : list string) (rows : list (list string)) (w : World) :
  os_Open env filePath = inl (inl headers :: (inl <$> rows)) ->
  Forall (fun record => List.length record = List.length headers) rows ->
  exists allRecords : list Record_,
    readRecords variant env filePath Csv w = (inl allRecords, w) /\
    List.length allRecords = List.length rows /\
    forall (j : nat) (record : list string),
      rows !! j = Some record ->
      exists row : Record_,
        allRecords !! j = Some row /\
        (forall k, k ∉ headers -> row !! k = None) /\
        forall (i : nat) (header cell : string),
          headers !! i = Some header ->
          record !! i = Some cell ->
          header ∉ drop (S i) headers ->
          (forall n, base10 cell n -> row !! header = Some (AnyInt n)) /\
          ((forall n, ~ base10 cell n) -> row !! header = Some (AnyString cell)) /\
          (cell = "NULL" -> row !! header = Some (AnyString "NULL")).
Proof.
  intros Hopen Hall.
  exists (rowOf headers <$> rows). split; [| split].
  - apply readRecords_csv; [assumption|].
    eapply Forall_impl; [exact Hall|]. simpl. intros record ->. lia.
  - apply length_fmap.
  - intros j record Hj. exists (rowOf headers record). split; [| split].
    + now rewrite list_lookup_fmap, Hj.
    + intros k Hk. now apply rowOf_lookup_other.
    + intros i header cell Hh Hc Hlast.
      pose proof (rowOf_lookup headers record i header cell Hh Hc Hlast) as Hrow.
      rewrite Hrow. split; [| split].
      * intros n Hn. now rewrite (cellValue_int cell n Hn).
      * intros Hno. now rewrite (cellValue_string cell Hno).
      * intros ->. reflexivity.
Qed.

Lemma csv_reader_witness :
  let env := sampleEnv ["001_users.csv"] [idColumn; nameColumn] 0 []
               [inl ["id"; "name"]; inl ["1"; "Alice"]; inl ["NULL"; "Bob"]] [] in
  readRecords WithHandleError env "test_data/001_users.csv" Csv initial
    = (inl [ {[ "id" := AnyInt 1; "name" := AnyString "Alice" ]};
             {[ "id" := AnyString "NULL"; "name" := AnyString "Bob" ]} ], initial) /\
  exists allRecords : list Record_,
    readRecords WithHandleError env "test_data/001_users.csv" Csv initial
      = (inl allRecords, initial) /\
    List.length allRecords = 2.
Proof.
  intros env. split; [vm_compute; reflexivity|].
  destruct (csv_reader WithHandleError env "test_data/001_users.csv" ["id"; "name"]
              [["1"; "Alice"]; ["NULL"; "Bob"]] initial)
    as (allRecords & Hread & Hlen & _).
  - reflexivity.
  - repeat constructor.
  - exists allRecords. now split.
Defined.

(** ** The loops of [main] *)

(** A loop whose body stops the process at some element stops there,
    whatever follows. *)
Lemma forEach_stops {A} (body : A -> M unit) (pre : list A) (x : A) (post : list A)
    (w w1 w2 : World) (h : Halt) :
  forEach body pre w = (inl tt, w1) ->
  body x w1 = (inr h, w2) ->
  forEach body (pre ++ x :: post) w = (inr h, w2).
Proof.
  revert w. induction pre as [|y pre IH]; intros w Hpre Hx.
  - injection Hpre as <-. simpl. now apply bind_halt.
  - simpl in *. unfold mbind, M_bind in *.
    destruct (body y w) as [[[]|h'] w'] eqn:E; [|discriminate].
    now apply IH.
Qed.

Section record.
Variable variant : Variant.
Variable env : Env.
Variable tableName : string.
Variable schema : Schema.
Variable isTableIdentity : bool.
Variable computeColumns : list string.
Variable ext : Format.
Variable records : Record_.
Variable w : World.

Lemma processRecord_fatal (col : string) (origin : Format) :
  project computeColumns ext records (rangeOrder env schema (ranges w)) = Fatal col origin ->
  processRecord variant env tableName schema isTableIdentity computeColumns ext records w
  = (inr (Exit 1), logged (requiredFieldMessage col origin) (ranged w)).
Proof.
  intros H. unfold processRecord.
  erewrite bind_ok by reflexivity. now rewrite H.
Qed.

Lemma processRecord_empty (values : list any) :
  project computeColumns ext records (rangeOrder env schema (ranges w))
    = Projected [] values ->
  processRecord variant env tableName schema isTableIdentity computeColumns ext records w
  = (inr MainReturn, printed "No data to insert." (ranged w)).
Proof.
  intros H. unfold processRecord.
  erewrite bind_ok by reflexivity. now rewrite H.
Qed.

Lemma processRecord_insert (columns : list string) (values : list any) :
  project computeColumns ext records (rangeOrder env schema (ranges w))
    = Projected columns values ->
  columns <> [] ->
  db_Exec env (executed w) (buildQuery tableName isTableIdentity columns) values = None ->
  processRecord variant env tableName schema isTableIdentity computeColumns ext records w
  = (inl tt,
     ran (buildQuery tableName isTableIdentity columns) values
       (printed ("query  " +:+ buildQuery tableName isTableIdentity columns) (ranged w))).
Proof.
  intros H Hne Hexec. unfold processRecord.
  erewrite bind_ok by reflexivity. rewrite H.
  destruct columns as [|c columns]; [congruence|].
  change (List.length (c :: columns) =? 0)%nat with false. cbv iota zeta.
  erewrite bind_ok by reflexivity.
  erewrite bind_ok by reflexivity.
  change (executed (printed ?l (ranged w))) with (executed w).
  rewrite Hexec. now destruct variant.
Qed.

End record.

Lemma liftGo_Return {A} (a : A) (w : World) : liftGo (Return a) w = (inl a, w).
Proof. reflexivity. Qed.

(** Once the name, the metadata and the contents of a file are obtained,
    what is left of its processing is the loop over its records. *)
Lemma processFile_loaded (variant : Variant) (env : Env) (dirPath fileName : string)
    (tableName : string) (ext : Format) (schema : Schema) (isTableIdentity : bool)
    (computeColumns : list string) (allRecords : list Record_) (w : World) :
  parseFileName fileName = Return (tableName, ext) ->
  getTableSchema env tableName = inl schema ->
  isTableHasIdentity env tableName = Return (inl isTableIdentity) ->
  getComputeColumns env tableName = inl computeColumns ->
  readRecords variant env (dirPath +:+ "/" +:+ fileName) ext w = (inl allRecords, w) ->
  processFile variant env dirPath fileName w =
    forEach (processRecord variant env tableName schema isTableIdentity computeColumns ext)
            allRecords w.
Proof.
  intros Hname Hschema Hid Hcc Hread. unfold processFile.
  rewrite Hname.
  erewrite bind_ok by apply liftGo_Return. cbv beta iota zeta.
  rewrite Hschema, Hid, Hcc.
  erewrite bind_ok by apply checked_ok.
  erewrite bind_ok.
  2:{ erewrite bind_ok by apply liftGo_Return. apply checked_ok. }
  erewrite bind_ok by apply checked_ok.
  erewrite bind_ok by exact Hread.
  reflexivity.
Qed.

(** A file whose processing stops the process ends the run in the same
    way, whatever files follow. *)
Lemma run_stops (variant : Variant) (env : Env) (flags : Flags)
    (before : list string) (fileName : string) (after : list string)
    (w1 w2 : World) (h : Halt) :
  sqlx_Open env (connectionString flags) = None ->
  os_ReadDir env (dirPath flags) = inl (before ++ fileName :: after) ->
  processFiles variant env (dirPath flags) before initial = (inl tt, w1) ->
  processFile variant env (dirPath flags) fileName w1 = (inr h, w2) ->
  run variant env flags = (h, w2).
Proof.
  intros Hopen Hdir Hbefore Hfile. unfold run, main.
  rewrite Hopen, Hdir.
  erewrite bind_ok by (destruct variant; reflexivity).
  erewrite bind_ok by apply checked_ok.
  erewrite bind_halt; [reflexivity|].
  unfold processFiles in *. now apply (forEach_stops _ _ _ _ _ w1).
Qed.

(** The record the run has got to decides how the run ends when its
    processing stops the process. *)
Lemma reaches_stops (variant : Variant) (env : Env) (flags : Flags)
    (tableName : string) (ext : Format) (schema : Schema) (isTableIdentity : bool)
    (computeColumns : list string) (records : Record_) (w w2 : World) (h : Halt) :
  reaches variant env flags tableName ext schema isTableIdentity computeColumns records w ->
  processRecord variant env tableName schema isTableIdentity computeColumns ext records w
    = (inr h, w2) ->
  run variant env flags = (h, w2).
Proof.
  intros (before & fileName & after & earlier & later & w1 &
          Hopen & Hdir & Hbefore & Hname & Hschema & Hid & Hcc & Hread & Hearlier) Hstop.
  apply (run_stops variant env flags before fileName after w1); try assumption.
  rewrite (processFile_loaded variant env (dirPath flags) fileName tableName ext schema
             isTableIdentity computeColumns (earlier ++ records :: later) w1)
    by assumption.
  now apply (forEach_stops _ _ _ _ _ w).
Qed.

Lemma serverManaged_false (computeColumns : list string) (col : string)
    (colSchema : ColumnSchema) :
  serverManaged computeColumns col colSchema = false <->
  DataType colSchema <> "timestamp" /\ col ∉ computeColumns.
Proof.
  rewrite <- not_true_iff_false, serverManaged_true. tauto.
Qed.

(** ** How a run ends *)

(** C2 (amended): a non-nullable column without default that the record
    lacks, or whose cell in a CSV record is "NULL" while the column is
    neither computed nor a timestamp, makes the projection fatal: the message
    "required field <column> missing from <origin>" is logged for a column
    that is itself required and missing, the process exits with status 1, and
    nothing more is executed, neither for this record nor for the records
    and files that follow. *)
Theorem required_column_aborts_run (variant : Variant) (env : Env) (flags : Flags)
    (tableName : string) (ext : Format) (schema : Schema) (isTableIdentity : bool)
    (computeColumns : list string) (records : Record_) (w : World)
    (col : string) (colSchema : ColumnSchema) :
  permutes env ->
  reaches variant env flags tableName ext schema isTableIdentity computeColumns records w ->
  schema !! col = Some colSchema ->
  IsNullable colSchema <> "YES" ->
  Valid (ColumnDefault colSchema) = false ->
  records !! col = None \/
  (ext = Csv /\ records !! col = Some (AnyString "NULL") /\
   DataType colSchema <> "timestamp" /\ col ∉ computeColumns) ->
  exists (c : string) (origin : Format),
    project computeColumns ext records (rangeOrder env schema (ranges w)) = Fatal c origin /\
    run variant env flags = (Exit 1, logged (requiredFieldMessage c origin) (ranged w)) /\
    executed (run variant env flags).2 = executed w /\
    exists cs, schema !! c = Some cs /\ required cs = true /\
               (records !! c = None \/
                (ext = Csv /\ records !! c = Some (AnyString "NULL"))).
Proof.
  intros Hperm Hreach Hcol Hnn Hnd Hfield.
  assert (Hreq : required colSchema = true) by now apply required_true.
  assert (Hbody : exists origin,
             loopBody computeColumns ext records col colSchema = LogFatalf origin).
  { destruct Hfield as [Hnone | (-> & Hnull & Hts & Hcc)].
    - exists Json. now apply loopBody_required_absent.
    - exists Csv. apply loopBody_required_null; [assumption | assumption |].
      now apply serverManaged_false. }
  destruct Hbody as [origin Hbody].
  destruct (project_fails schema (rangeOrder env schema (ranges w)) (Hperm schema (ranges w))
              computeColumns ext records col colSchema origin Hcol Hbody)
    as (c & cs & o & Hproj & Hc & Hfatal).
  exists c, o.
  pose proof (processRecord_fatal variant env tableName schema isTableIdentity
                computeColumns ext records w c o Hproj) as Hstop.
  pose proof (reaches_stops _ _ _ _ _ _ _ _ _ _ _ _ Hreach Hstop) as Hrun.
  split; [exact Hproj | split; [exact Hrun | split]].
  - now rewrite Hrun.
  - exists cs. apply loopBody_LogFatalf_inv in Hfatal as (Hreqc & Hwhy).
    split; [assumption | split; [assumption|]].
    destruct Hwhy as [(_ & Hnone) | (_ & Hext & Hnull & _)]; [now left | now right].
Qed.

Lemma required_column_aborts_run_witness :
  let env := usersEnv [idColumn; nameColumn]
               [inl ["id"; "name"]; inl ["1"; "Alice"]; inl ["NULL"; "Bob"];
                inl ["3"; "Carol"]] in
  let query := "INSERT INTO users ([id], [name]) VALUES (@p1, @p2);" in
  run WithHandleError env sampleFlags
  = (Exit 1,
     {| stdout := ["query  " +:+ query];
        stderr := ["required field id missing from csv"];
        executed := [(query, [AnyInt 1; AnyString "Alice"])];
        ranges := 2 |}).
Proof.
  intros env query.
  set (records := {[ "id" := AnyString "NULL"; "name" := AnyString "Bob" ]} : Record_).
  set (w := ran query [AnyInt 1; AnyString "Alice"]
              (printed ("query  " +:+ query) (ranged initial))).
  destruct (required_column_aborts_run WithHandleError env sampleFlags "users" Csv
              (schemaOf [idColumn; nameColumn]) false [] records w "id" idColumn)
    as (c & origin & Hproj & Hrun & _).
  - intros schema n. reflexivity.
  - exists [], "001_users.csv", ["002_orders.json"],
      [ {[ "id" := AnyInt 1; "name" := AnyString "Alice" ]} ],
      [ {[ "id" := AnyInt 3; "name" := AnyString "Carol" ]} ], initial.
    repeat split; vm_compute; reflexivity.
  - vm_compute. reflexivity.
  - discriminate.
  - reflexivity.
  - right. split; [reflexivity | split; [vm_compute; reflexivity | split]];
      [discriminate | apply not_elem_of_nil].
  - assert (Hfatal : project [] Csv records (rangeOrder env (schemaOf [idColumn; nameColumn])
                                              (ranges w)) = Fatal "id" Csv)
      by (vm_compute; reflexivity).
    rewrite Hfatal in Hproj. injection Hproj as <- <-. exact Hrun.
Defined.

(** C4: when the run gets to a record whose projection is empty, it prints
    "No data to insert." and returns from [main]: no error is reported,
    nothing is executed for this record, and the records and the files that
    follow are not processed. *)
Theorem empty_projection_ends_run (variant : Variant) (env : Env) (flags : Flags)
    (tableName : string) (ext : Format) (schema : Schema) (isTableIdentity : bool)
    (computeColumns : list string) (records : Record_) (w : World)
    (values : list any) :
  reaches variant env flags tableName ext schema isTableIdentity computeColumns records w ->
  project computeColumns ext records (rangeOrder env schema (ranges w))
    = Projected [] values ->
  run variant env flags = (MainReturn, printed "No data to insert." (ranged w)) /\
  stdout (run variant env flags).2 = stdout w ++ ["No data to insert."] /\
  stderr (run variant env flags).2 = stderr w /\
  executed (run variant env flags).2 = executed w.
Proof.
  intros Hreach Hproj.
  pose proof (processRecord_empty variant env tableName schema isTableIdentity
                computeColumns ext records w values Hproj) as Hstop.
  pose proof (reaches_stops _ _ _ _ _ _ _ _ _ _ _ _ Hreach Hstop) as Hrun.
  rewrite Hrun. repeat split.
Qed.

Lemma empty_projection_ends_run_witness :
  let env := usersEnv [nameColumn]
               [inl ["name"]; inl ["Alice"]; inl ["NULL"]; inl ["Carol"]] in
  let query := "INSERT INTO users ([name]) VALUES (@p1);" in
  run WithMust env sampleFlags
  = (MainReturn,
     {| stdout := ["query  " +:+ query; "No data to insert."];
        stderr := [];
        executed := [(query, [AnyString "Alice"])];
        ranges := 2 |}).
Proof.
  intros env query.
  set (w := ran query [AnyString "Alice"]
              (printed ("query  " +:+ query) (ranged initial))).
  destruct (empty_projection_ends_run WithMust env sampleFlags "users" Csv
              (schemaOf [nameColumn]) false []
              ({[ "name" := AnyString "NULL" ]} : Record_) w [])
    as (Hrun & _).
  - exists [], "001_users.csv", ["002_orders.json"],
      [ {[ "name" := AnyString "Alice" ]} ],
      [ {[ "name" := AnyString "Carol" ]} ], initial.
    repeat split; vm_compute; reflexivity.
  - vm_compute. reflexivity.
  - exact Hrun.
Defined.

(** The statement and the arguments described by [statementFor] are what
    the processing of the record hands to [db.Exec]. *)
Lemma processRecord_statement (variant : Variant) (env : Env) (tableName : string)
    (schema : Schema) (isTableIdentity : bool) (computeColumns : list string)
    (ext : Format) (records : Record_) (w : World)
    (query : string) (values : list any) :
  statementFor tableName isTableIdentity computeColumns ext records
    (rangeOrder env schema (ranges w)) = Some (query, values) ->
  executed (processRecord variant env tableName schema isTableIdentity computeColumns
              ext records w).2
  = executed w ++ [(query, values)].
Proof.
  unfold statementFor, processRecord. intros H.
  erewrite bind_ok by reflexivity.
  destruct (project computeColumns ext records (rangeOrder env schema (ranges w)))
    as [columns vals|]; [|discriminate].
  destruct columns as [|c columns]; [discriminate|].
  change (List.length (c :: columns) =? 0)%nat with false in *. cbv iota zeta in *.
  injection H as <- <-.
  erewrite bind_ok by reflexivity.
  erewrite bind_ok by reflexivity.
  destruct variant; simpl;
    destruct (db_Exec env _ _ _); reflexivity.
Qed.

(** A directory whose two files are loaded to the end, under each
    variant. *)
Example run_upload_done :
  let env := sampleEnv ["001_users.csv"; "002_users.json"] [idColumn; nameColumn] 1 []
               [inl ["id"; "name"]; inl ["1"; "Alice"]]
               [ {[ "id" := AnyFloat64 float64_2 ]} ] in
  let csvQuery :=
    "SET IDENTITY_INSERT users ON;INSERT INTO users ([id], [name]) VALUES (@p1, @p2);SET IDENTITY_INSERT users OFF;" in
  let jsonQuery :=
    "SET IDENTITY_INSERT users ON;INSERT INTO users ([id]) VALUES (@p1);SET IDENTITY_INSERT users OFF;" in
  let done :=
    {| stdout := ["query  " +:+ csvQuery; "query  " +:+ jsonQuery; "Upload done"];
       stderr := [];
       executed := [(csvQuery, [AnyInt 1; AnyString "Alice"]);
                    (jsonQuery, [AnyFloat64 float64_2])];
       ranges := 2 |} in
  run WithMust env sampleFlags = (MainReturn, done) /\
  run WithHandleError env sampleFlags = (Exit 0, done).
Proof. split; vm_compute; reflexivity. Qed.

(** A directory entry without underscore stops the run with a panic. *)
Example run_bad_name :
  run WithHandleError
      (sampleEnv ["README.md"] [idColumn] 0 [] [] []) sampleFlags
  = (Panic (IndexOutOfRange 1 1), initial).
Proof. vm_compute. reflexivity. Qed.

(** ** Further properties of the projection *)

Lemma rejects_Permutation (computeColumns : list string) (ext : Format)
    (records : Record_) (e1 e2 : list (string * ColumnSchema)) :
  e1 ≡ₚ e2 ->
  Forall (fun entry => ~ rejects computeColumns ext records entry) e1 ->
  Forall (fun entry => ~ rejects computeColumns ext records entry) e2.
Proof. intros Hperm H. now rewrite <- Hperm. Qed.

Lemma appended_Permutation (computeColumns : list string) (ext : Format)
    (records : Record_) (e1 e2 : list (string * ColumnSchema)) :
  e1 ≡ₚ e2 ->
  appended computeColumns ext records e1 ≡ₚ appended computeColumns ext records e2.
Proof. intros Hperm. unfold appended. now rewrite Hperm. Qed.

(** X1: two visits of the same entries in different orders either are
    both fatal, or give the same pairs of column and value up to their order;
    in particular whether the projection is empty does not depend on the
    order. *)
Theorem projection_order_independent (computeColumns : list string) (ext : Format)
    (records : Record_) (e1 e2 : list (string * ColumnSchema)) :
  e1 ≡ₚ e2 ->
  match project computeColumns ext records e1,
        project computeColumns ext records e2 with
  | Projected c1 v1, Projected c2 v2 =>
      zip c1 v1 ≡ₚ zip c2 v2 /\ c1 ≡ₚ c2 /\ v1 ≡ₚ v2 /\
      List.length c1 = List.length c2
  | Fatal col1 _, Fatal col2 _ => col1 ∈ e1.*1 /\ col2 ∈ e1.*1
  | _, _ => False
  end.
Proof.
  intros Hperm.
  destruct (project computeColumns ext records e1) as [c1 v1 | col1 o1] eqn:E1;
    destruct (project computeColumns ext records e2) as [c2 v2 | col2 o2] eqn:E2.
  - apply project_Projected_inv in E1 as (_ & -> & ->).
    apply project_Projected_inv in E2 as (_ & -> & ->).
    pose proof (appended_Permutation computeColumns ext records e1 e2 Hperm) as Happ.
    rewrite !zip_fst_snd. split; [exact Happ|].
    split; [now rewrite Happ | split; [now rewrite Happ | now rewrite !length_fmap, Happ]].
  - apply project_Projected_inv in E1 as (Hok & _).
    apply project_Fatal_inv in E2 as (cs & Hin & Hfatal).
    rewrite <- Hperm in Hin. rewrite Forall_forall in Hok.
    apply (Hok _ Hin). now exists o2.
  - apply project_Projected_inv in E2 as (Hok & _).
    apply project_Fatal_inv in E1 as (cs & Hin & Hfatal).
    rewrite Hperm in Hin. rewrite Forall_forall in Hok.
    apply (Hok _ Hin). now exists o1.
  - apply project_Fatal_inv in E1 as (cs1 & Hin1 & _).
    apply project_Fatal_inv in E2 as (cs2 & Hin2 & _).
    rewrite <- Hperm in Hin2.
    split; apply list_elem_of_fmap; [now exists (col1, cs1) | now exists (col2, cs2)].
Qed.

Lemma projection_order_independent_witness :
  zip ["[id]"; "[name]"] [AnyFloat64 float64_1; AnyString "Alice"]
  ≡ₚ zip ["[name]"; "[id]"] [AnyString "Alice"; AnyFloat64 float64_1].
Proof.
  pose proof (projection_order_independent [] Json alice
                [("id", idColumn); ("name", nameColumn)]
                [("name", nameColumn); ("id", idColumn)] (perm_swap _ _ _)) as H.
  vm_compute project in H. exact (proj1 H).
Defined.

Lemma loopBody_ext (computeColumns : list string) (ext : Format)
    (r1 r2 : Record_) (col : string) (colSchema : ColumnSchema) :
  r1 !! col = r2 !! col ->
  loopBody computeColumns ext r1 col colSchema
  = loopBody computeColumns ext r2 col colSchema.
Proof. intros H. unfold loopBody. now rewrite H. Qed.

Lemma projectLoop_ext (computeColumns : list string) (ext : Format)
    (r1 r2 : Record_) (entries : list (string * ColumnSchema)) :
  forall columns values,
    Forall (fun entry => r1 !! entry.1 = r2 !! entry.1) entries ->
    projectLoop computeColumns ext r1 entries columns values
    = projectLoop computeColumns ext r2 entries columns values.
Proof.
  induction entries as [|[col cs] rest IH]; intros columns values Hall; [reflexivity|].
  inversion Hall as [|? ? Hhead Hrest]; subst. simpl in Hhead. simpl.
  rewrite (loopBody_ext computeColumns ext r1 r2 col cs Hhead).
  destruct (loopBody computeColumns ext r2 col cs); auto.
Qed.

(** X2: the projection reads the record only at the columns of the
    schema: two records that agree on them, whatever other fields they hold,
    have the same projection. *)
Theorem projection_ignores_unknown_fields (schema : Schema)
    (entries : list (string * ColumnSchema)) (computeColumns : list string)
    (ext : Format) (r1 r2 : Record_) :
  entries ≡ₚ map_to_list schema ->
  (forall col, is_Some (schema !! col) -> r1 !! col = r2 !! col) ->
  project computeColumns ext r1 entries = project computeColumns ext r2 entries.
Proof.
  intros Hvisit Hagree. unfold project. apply projectLoop_ext.
  apply Forall_forall. intros [col cs] Hin. simpl.
  apply Hagree. apply (visit_lookup schema) in Hin; [|exact Hvisit]. now exists cs.
Qed.

Lemma projection_ignores_unknown_fields_witness :
  project [] Json (<["nickname" := AnyString "Al"]> alice) (map_to_list scenarioSchema)
  = project [] Json alice (map_to_list scenarioSchema).
Proof.
  apply (projection_ignores_unknown_fields scenarioSchema).
  - reflexivity.
  - intros col [cs Hcol]. each_column Hcol; vm_compute; reflexivity.
Defined.

Lemma visit_NoDup (schema : Schema) (entries : list (string * ColumnSchema)) :
  entries ≡ₚ map_to_list schema -> NoDup entries.*1.
Proof. intros ->. apply NoDup_fst_map_to_list. Qed.

Lemma appended_NoDup (computeColumns : list string) (ext : Format)
    (records : Record_) (entries : list (string * ColumnSchema)) :
  NoDup entries.*1 ->
  NoDup (appended computeColumns ext records entries).*1.
Proof.
  induction entries as [|[col cs] rest IH]; intros Hnd; [constructor|].
  rewrite fmap_cons in Hnd. apply NoDup_cons in Hnd as [Hnotin Hnd].
  rewrite appended_cons.
  destruct (loopBody computeColumns ext records col cs) as [|column val|origin] eqn:E;
    [now apply IH | | now apply IH].
  rewrite fmap_cons. apply NoDup_cons. split; [|now apply IH].
  intros Hin. apply Hnotin. simpl in *.
  apply list_elem_of_fmap in Hin as ([column' val'] & Hc & Hin). simpl in Hc. subst column'.
  apply elem_of_appended in Hin as (c' & cs' & Hentry & Hbody).
  apply loopBody_Append_inv in E as (Hcol & _).
  apply loopBody_Append_inv in Hbody as (Hcol' & _).
  rewrite Hcol in Hcol'. apply bracket_inj in Hcol'. subst c'.
  apply list_elem_of_fmap. now exists (col, cs').
Qed.

(** X3: a projection that succeeds lists exactly the columns of the
    schema for which the record holds a value, that are neither computed nor
    timestamps and, in a CSV file, whose cell is not "NULL"; each of them
    once. *)
Theorem projected_columns_exact (schema : Schema)
    (entries : list (string * ColumnSchema)) (computeColumns : list string)
    (ext : Format) (records : Record_) (columns : list string) (values : list any) :
  entries ≡ₚ map_to_list schema ->
  project computeColumns ext records entries = Projected columns values ->
  NoDup columns /\
  forall col,
    "[" +:+ col +:+ "]" ∈ columns <->
    exists colSchema val,
      schema !! col = Some colSchema /\ records !! col = Some val /\
      serverManaged computeColumns col colSchema = false /\
      ~ (ext = Csv /\ val = AnyString "NULL").
Proof.
  intros Hvisit Hproj.
  pose proof (project_Projected_inv _ _ _ _ _ _ Hproj) as (Hok & Hcolumns & _).
  split.
  - rewrite Hcolumns. apply appended_NoDup. now apply (visit_NoDup schema).
  - intros col. split.
    + intros Hin. rewrite Hcolumns in Hin.
      apply list_elem_of_fmap in Hin as ([column val] & Hc & Hin). simpl in Hc. subst column.
      apply elem_of_appended in Hin as (c & cs & Hentry & Hbody).
      apply loopBody_Append_inv in Hbody as (Heq & Hval & Hfree & Hnull).
      apply bracket_inj in Heq. subst c.
      apply (visit_lookup schema) in Hentry; [|exact Hvisit].
      now exists cs, val.
    + intros (cs & val & Hcol & Hval & Hfree & Hnull).
      rewrite Hcolumns. apply list_elem_of_fmap.
      exists ("[" +:+ col +:+ "]", val). split; [reflexivity|].
      apply elem_of_appended. exists col, cs. split.
      * now apply (visit_lookup schema entries).
      * unfold loopBody. rewrite Hval, Hfree.
        destruct (bool_decide (ext = Csv) && any_eq_string val "NULL") eqn:E;
          [|reflexivity].
        exfalso. apply Hnull. apply andb_true_iff in E as [Hext Hstr].
        apply bool_decide_eq_true in Hext. split; [assumption|].
        destruct val; simpl in Hstr; try discriminate.
        apply String.eqb_eq in Hstr. now subst.
Qed.

Lemma projected_columns_exact_witness :
  NoDup ["[id]"; "[name]"] /\
  ("[" +:+ "name" +:+ "]" ∈ ["[id]"; "[name]"] <->
   exists colSchema val,
     scenarioSchema !! "name" = Some colSchema /\ alice !! "name" = Some val /\
     serverManaged [] "name" colSchema = false /\
     ~ (Json = Csv /\ val = AnyString "NULL")).
Proof.
  destruct (projected_columns_exact scenarioSchema (map_to_list scenarioSchema) [] Json
              alice ["[id]"; "[name]"] [AnyFloat64 float64_1; AnyString "Alice"])
    as [Hnd Hiff].
  - reflexivity.
  - vm_compute. reflexivity.
  - split; [exact Hnd | exact (Hiff "name")].
Defined.

(** X4: the projection is fatal exactly when some column of the schema is
    non-nullable without default and either the record lacks it, or the file
    is CSV, its cell is "NULL" and the column is neither computed nor a
    timestamp; for a JSON file, exactly when the record lacks such a
    column. *)
Theorem projection_fatal_iff (schema : Schema)
    (entries : list (string * ColumnSchema)) (computeColumns : list string)
    (ext : Format) (records : Record_) :
  entries ≡ₚ map_to_list schema ->
  ((exists col origin, project computeColumns ext records entries = Fatal col origin) <->
   exists col colSchema,
     schema !! col = Some colSchema /\ required colSchema = true /\
     (records !! col = None \/
      (ext = Csv /\ records !! col = Some (AnyString "NULL") /\
       serverManaged computeColumns col colSchema = false))) /\
  (ext = Json ->
   (exists col origin, project computeColumns ext records entries = Fatal col origin) <->
   exists col colSchema,
     schema !! col = Some colSchema /\ required colSchema = true /\
     records !! col = None).
Proof.
  intros Hvisit.
  assert (Hiff : (exists col origin,
                     project computeColumns ext records entries = Fatal col origin) <->
                 exists col colSchema,
                   schema !! col = Some colSchema /\ required colSchema = true /\
                   (records !! col = None \/
                    (ext = Csv /\ records !! col = Some (AnyString "NULL") /\
                     serverManaged computeColumns col colSchema = false))).
  { split.
    - intros (col & origin & Hproj).
      apply project_Fatal_inv in Hproj as (cs & Hentry & Hfatal).
      apply (visit_lookup schema) in Hentry; [|exact Hvisit].
      apply loopBody_LogFatalf_inv in Hfatal as (Hreq & Hwhy).
      exists col, cs. split; [assumption | split; [assumption|]].
      destruct Hwhy as [(_ & Hnone) | (_ & Hext & Hnull & Hfree)]; [now left | now right].
    - intros (col & cs & Hcol & Hreq & Hwhy).
      assert (Hbody : exists origin,
                 loopBody computeColumns ext records col cs = LogFatalf origin).
      { destruct Hwhy as [Hnone | (-> & Hnull & Hfree)].
        - exists Json. now apply loopBody_required_absent.
        - exists Csv. now apply loopBody_required_null. }
      destruct Hbody as [origin Hbody].
      destruct (project_fails schema entries Hvisit computeColumns ext records
                  col cs origin Hcol Hbody) as (c & _ & o & Hproj & _).
      now exists c, o. }
  split; [exact Hiff|].
  intros ->. rewrite Hiff. split.
  - intros (col & cs & Hcol & Hreq & [Hnone | (Hext & _)]); [|discriminate].
    now exists col, cs.
  - intros (col & cs & Hcol & Hreq & Hnone). exists col, cs. auto.
Qed.

Lemma projection_fatal_iff_witness :
  (exists col origin,
      project [] Json ({[ "name" := AnyString "NULL" ]} : Record_)
        (map_to_list scenarioSchema) = Fatal col origin) <->
  exists col colSchema,
    scenarioSchema !! col = Some colSchema /\ required colSchema = true /\
    ({[ "name" := AnyString "NULL" ]} : Record_) !! col = None.
Proof.
  destruct (projection_fatal_iff scenarioSchema (map_to_list scenarioSchema) [] Json
              ({[ "name" := AnyString "NULL" ]} : Record_)) as [_ Hjson].
  - reflexivity.
  - apply Hjson. reflexivity.
Defined.

(** X5: the origin named by the fatal message tells how the field is
    missing, not the format of the file: it is "json" exactly when the record
    lacks the column, also for a CSV file, and "csv" exactly when the cell of
    a CSV record is "NULL". *)
Theorem fatal_origin (schema : Schema)
    (entries : list (string * ColumnSchema)) (computeColumns : list string)
    (ext : Format) (records : Record_) (col : string) (origin : Format) :
  entries ≡ₚ map_to_list schema ->
  project computeColumns ext records entries = Fatal col origin ->
  (origin = Json <-> records !! col = None) /\
  (origin = Csv <-> ext = Csv /\ records !! col = Some (AnyString "NULL")).
Proof.
  intros Hvisit Hproj.
  apply project_Fatal_inv in Hproj as (cs & _ & Hfatal).
  apply loopBody_LogFatalf_inv in Hfatal as (_ & [(-> & Hnone) | (-> & Hext & Hnull & _)]).
  - split; split; auto; try discriminate.
    intros (_ & Hsome). congruence.
  - split; split; auto; try discriminate.
    intros Hnone. congruence.
Qed.

Lemma fatal_origin_witness :
  let records : Record_ := {[ "name" := AnyString "Bob" ]} in
  project [] Csv records (map_to_list scenarioSchema) = Fatal "id" Json /\
  requiredFieldMessage "id" Json = "required field id missing from json" /\
  (Json = Json <-> records !! "id" = None).
Proof.
  intros records.
  assert (Hproj : project [] Csv records (map_to_list scenarioSchema) = Fatal "id" Json)
    by (vm_compute; reflexivity).
  split; [exact Hproj | split; [reflexivity|]].
  destruct (fatal_origin scenarioSchema (map_to_list scenarioSchema) [] Csv records
              "id" Json) as [Hjson _]; [reflexivity | exact Hproj | exact Hjson].
Defined.

(** ** Further properties of the file-name parser *)

Lemma afterUnderscore_Return (nameAndExt : list string) (tableName : string) (f : Format) :
  afterUnderscore nameAndExt = Return (tableName, f) <->
  2 <= List.length nameAndExt /\
  getFileFormat (List.last nameAndExt "") = Return f /\
  tableName = strings.Join (removelast nameAndExt) "".
Proof.
  destruct nameAndExt as [|a [|b rest]].
  - simpl. split; [discriminate | lia].
  - simpl. split; [discriminate | lia].
  - unfold afterUnderscore. set (l := List.last _ _). set (t := strings.Join _ _).
    destruct (getFileFormat l) as [f'|p]; simpl.
    + split.
      * intros [= <- <-]. split; [lia | split; reflexivity].
      * intros (_ & [= <-] & ->). reflexivity.
    + split; [discriminate | intros (_ & H & _); discriminate].
Qed.

Lemma Contains_concat_nosep (segs : list string) (sep : ascii) :
  Forall (fun seg => strings.Contains seg sep = false) segs ->
  strings.Contains (strings.Join segs "") sep = false.
Proof.
  unfold strings.Join. induction segs as [|x segs IH]; intros Hall; [reflexivity|].
  inversion Hall as [|? ? Hx Hrest]; subst.
  destruct segs as [|y segs]; [exact Hx|].
  change (String.concat "" (x :: y :: segs))
    with (x +:+ "" +:+ String.concat "" (y :: segs)).
  rewrite !Contains_append, Hx, (IH Hrest). reflexivity.
Qed.

(** X6: the parser returns a table and a format exactly for the names
    "<prefix>_<name>.<ext>" whose prefix has no underscore and whose <ext> has
    no dot and is "json" or "csv"; the table is then <name> with its dots
    removed, so it never holds a dot, and the prefix plays no part. *)
Theorem parseFileName_Return (fn tableName : string) (f : Format) :
  (parseFileName fn = Return (tableName, f) <->
   exists pre name ext : string,
     fn = pre +:+ "_" +:+ name +:+ "." +:+ ext /\
     strings.Contains pre "_" = false /\
     strings.Contains ext "." = false /\
     getFileFormat ext = Return f /\
     tableName = strings.Join (strings.Split name ".") "") /\
  (parseFileName fn = Return (tableName, f) -> strings.Contains tableName "." = false).
Proof.
  assert (Hiff : parseFileName fn = Return (tableName, f) <->
                 exists pre name ext : string,
                   fn = pre +:+ "_" +:+ name +:+ "." +:+ ext /\
                   strings.Contains pre "_" = false /\
                   strings.Contains ext "." = false /\
                   getFileFormat ext = Return f /\
                   tableName = strings.Join (strings.Split name ".") "").
  { split.
    - intros Hret.
      destruct (first_sep "_" fn) as [Hno | (pre & rest & -> & Hpre)].
      { rewrite parseFileName_no_underscore in Hret by assumption. discriminate. }
      rewrite parseFileName_after in Hret by assumption.
      apply afterUnderscore_Return in Hret as (Hlen & Hfmt & Ht).
      destruct (last_sep "." rest) as [Hno | (name & ext & -> & Hext)].
      { rewrite Split_no_sep in Hlen by assumption. simpl in Hlen. lia. }
      rewrite Split_app, (Split_no_sep "." ext) in Hfmt, Ht by assumption.
      rewrite last_last in Hfmt. rewrite removelast_last in Ht.
      now exists pre, name, ext.
    - intros (pre & name & ext & -> & Hpre & Hext & Hfmt & ->).
      change (pre +:+ "_" +:+ name +:+ "." +:+ ext)
        with (pre +:+ String "_" (name +:+ String "." ext)).
      rewrite parseFileName_after by assumption.
      rewrite Split_app, (Split_no_sep "." ext) by assumption.
      rewrite afterUnderscore_snoc by apply Split_nonempty.
      now rewrite Hfmt. }
  split; [exact Hiff|].
  intros Hret. apply Hiff in Hret as (pre & name & ext & _ & _ & _ & _ & ->).
  apply Contains_concat_nosep, Split_segments.
Qed.

Lemma parseFileName_Return_witness :
  parseFileName "2024_sales.archive.csv" = Return ("salesarchive", Csv) /\
  strings.Contains "salesarchive" "." = false.
Proof.
  destruct (parseFileName_Return "2024_sales.archive.csv" "salesarchive" Csv) as [Hiff Hdot].
  assert (H : parseFileName "2024_sales.archive.csv" = Return ("salesarchive", Csv)).
  { apply Hiff. exists "2024", "sales.archive", "csv". repeat split. }
  split; [exact H | exact (Hdot H)].
Defined.

(** X7: two names that differ only before their first underscore are
    parsed alike: they name the same table and format, or panic alike. *)
Theorem parseFileName_prefix_irrelevant (pre1 pre2 rest : string) :
  strings.Contains pre1 "_" = false ->
  strings.Contains pre2 "_" = false ->
  parseFileName (pre1 +:+ "_" +:+ rest) = parseFileName (pre2 +:+ "_" +:+ rest).
Proof.
  intros H1 H2.
  change (pre1 +:+ "_" +:+ rest) with (pre1 +:+ String "_" rest).
  change (pre2 +:+ "_" +:+ rest) with (pre2 +:+ String "_" rest).
  now rewrite !parseFileName_after.
Qed.

Lemma parseFileName_prefix_irrelevant_witness :
  parseFileName "001_users.csv" = parseFileName "zz-17_users.csv".
Proof.
  apply (parseFileName_prefix_irrelevant "001" "zz-17" "users.csv"); reflexivity.
Defined.

(** ** The schema map *)

Lemma schema_fold_notin (cols : list ColumnSchema) :
  forall (schema : Schema) (k : string),
    k ∉ ColumnName <$> cols ->
    foldl (fun schema col => <[ColumnName col := col]> schema) schema cols !! k
    = schema !! k.
Proof.
  induction cols as [|c cols IH]; intros schema k Hk; [reflexivity|].
  rewrite fmap_cons in Hk. apply not_elem_of_cons in Hk as [Hne Hk].
  simpl. rewrite IH by assumption. now apply lookup_insert_ne.
Qed.

Lemma schema_fold_last (cols : list ColumnSchema) :
  forall (schema : Schema) (i : nat) (c : ColumnSchema),
    cols !! i = Some c ->
    ColumnName c ∉ ColumnName <$> drop (S i) cols ->
    foldl (fun schema col => <[ColumnName col := col]> schema) schema cols
      !! ColumnName c = Some c.
Proof.
  induction cols as [|c' cols IH]; intros schema i c Hi Hlast; [discriminate|].
  destruct i as [|i]; simpl in *.
  - injection Hi as ->. rewrite drop_0 in Hlast.
    rewrite schema_fold_notin by assumption. apply lookup_insert_eq.
  - now apply (IH _ i).
Qed.

Lemma schema_fold_inv (cols : list ColumnSchema) :
  forall (schema : Schema) (k : string) (c : ColumnSchema),
    foldl (fun schema col => <[ColumnName col := col]> schema) schema cols !! k = Some c ->
    (c ∈ cols /\ ColumnName c = k) \/ schema !! k = Some c.
Proof.
  induction cols as [|c' cols IH]; intros schema k c H; [now right|].
  simpl in H. apply IH in H as [[Hin Hk] | H].
  - left. split; [now right | assumption].
  - destruct (decide (ColumnName c' = k)) as [<- | Hne].
    + rewrite lookup_insert_eq in H. injection H as <-. left. split; [left | reflexivity].
    + rewrite lookup_insert_ne in H by assumption. now right.
Qed.

Lemma schema_fold_in (cols : list ColumnSchema) :
  forall (schema : Schema) (c : ColumnSchema),
    c ∈ cols ->
    is_Some (foldl (fun schema col => <[ColumnName col := col]> schema) schema cols
               !! ColumnName c).
Proof.
  induction cols as [|c' cols IH]; intros schema c Hin; [inversion Hin|].
  apply elem_of_cons in Hin as [-> | Hin]; simpl; [|now apply IH].
  destruct (decide (ColumnName c' ∈ ColumnName <$> cols)) as [Hre | Hlastone].
  - apply list_elem_of_fmap in Hre as (c'' & Heq & Hin'').
    rewrite Heq. now apply IH.
  - rewrite schema_fold_notin by assumption.
    rewrite lookup_insert_eq. eauto.
Qed.

(** X8: the schema map holds, under each column name the query returned,
    the last row of that name, and nothing else: every entry is a returned
    row stored under its own name, and a table without rows gives the empty
    map. *)
Theorem getTableSchema_entries (env : Env) (tableName : string)
    (cols : list ColumnSchema) :
  selectColumns env tableName = inl cols ->
  exists schema : Schema,
    getTableSchema env tableName = inl schema /\
    (forall k c, schema !! k = Some c -> c ∈ cols /\ ColumnName c = k) /\
    (forall i c, cols !! i = Some c ->
                 ColumnName c ∉ ColumnName <$> drop (S i) cols ->
                 schema !! ColumnName c = Some c) /\
    (forall c, c ∈ cols -> is_Some (schema !! ColumnName c)) /\
    (cols = [] -> schema = ∅).
Proof.
  intros Hsel. exists (schemaOf cols). unfold getTableSchema. rewrite Hsel.
  split; [reflexivity | split; [| split; [| split]]].
  - intros k c H. apply schema_fold_inv in H as [H | H]; [exact H|].
    rewrite lookup_empty in H. discriminate.
  - intros i c Hi Hlast. now apply (schema_fold_last cols ∅ i).
  - intros c Hin. now apply schema_fold_in.
  - intros ->. reflexivity.
Qed.

Lemma getTableSchema_entries_witness :
  let env := sampleEnv [] [idColumn; nameColumn] 0 [] [] [] in
  exists schema : Schema,
    getTableSchema env "users" = inl schema /\
    schema !! "name" = Some nameColumn.
Proof.
  intros env.
  destruct (getTableSchema_entries env "users" [idColumn; nameColumn])
    as (schema & Hget & _ & Hlast & _); [reflexivity|].
  exists schema. split; [exact Hget|].
  apply (Hlast 1 nameColumn); [reflexivity|]. simpl. apply not_elem_of_nil.
Defined.

(** ** Failures of the surroundings *)

Lemma checked_failure {T} (variant : Variant) (errorCode : AppExitCode) (err : error)
    (w : World) :
  @checked T variant errorCode (inr err) w
  = (inr (failure variant errorCode err w).1, (failure variant errorCode err w).2).
Proof. destruct variant; reflexivity. Qed.

Lemma reachesFile_stops (variant : Variant) (env : Env) (flags : Flags)
    (fileName : string) (w w2 : World) (h : Halt) :
  reachesFile variant env flags fileName w ->
  processFile variant env (dirPath flags) fileName w = (inr h, w2) ->
  run variant env flags = (h, w2).
Proof.
  intros (before & after & Hopen & Hdir & Hbefore) Hstop.
  now apply (run_stops variant env flags before fileName after w).
Qed.

Lemma pair_eta {A B} (p : A * B) : p = (p.1, p.2).
Proof. now destruct p. Qed.

(** X9: when the run gets to a directory entry and one of the three
    metadata queries of its table fails, the run ends there: under
    [handleError] with exit status 2 after printing "error on get table
    info: <error>", under [must] with a panic; the file is not read and
    nothing is executed for it. *)
Theorem table_info_failure_ends_run (variant : Variant) (env : Env) (flags : Flags)
    (fileName tableName : string) (ext : Format) (err : error) (w : World) :
  reachesFile variant env flags fileName w ->
  parseFileName fileName = Return (tableName, ext) ->
  selectColumns env tableName = inr err \/
  ((exists cols, selectColumns env tableName = inl cols) /\
   selectIdentityCount env tableName = inr err) \/
  ((exists cols, selectColumns env tableName = inl cols) /\
   (exists n rest, selectIdentityCount env tableName = inl (n :: rest)) /\
   selectComputedColumns env tableName = inr err) ->
  run variant env flags = failure variant TableInfoErrorCode err w.
Proof.
  intros Hreach Hname Hfail.
  rewrite (pair_eta (failure variant TableInfoErrorCode err w)).
  apply (reachesFile_stops variant env flags fileName w); [assumption|].
  unfold processFile. rewrite Hname.
  erewrite bind_ok by apply liftGo_Return. cbv beta iota zeta.
  unfold getTableSchema, isTableHasIdentity, getComputeColumns.
  destruct Hfail as [Hcols | [(Hcols & Hid) | (Hcols & (n & rest & Hid) & Hcc)]].
  - rewrite Hcols. erewrite bind_halt by apply checked_failure. reflexivity.
  - destruct Hcols as [cols ->].
    erewrite bind_ok by apply checked_ok. rewrite Hid.
    erewrite bind_halt; [reflexivity|].
    erewrite bind_ok by apply liftGo_Return. apply checked_failure.
  - destruct Hcols as [cols ->].
    erewrite bind_ok by apply checked_ok. rewrite Hid, Hcc.
    erewrite bind_ok.
    2:{ erewrite bind_ok by apply liftGo_Return. apply checked_ok. }
    erewrite bind_halt by apply checked_failure. reflexivity.
Qed.

Lemma table_info_failure_ends_run_witness :
  let env :=
    {| sqlx_Open := fun _ => None;
       os_ReadDir := fun _ => inl ["001_users.csv"];
       selectColumns := fun _ => inl [idColumn];
       selectIdentityCount := fun _ => inr (errorString "mssql: login failed");
       selectComputedColumns := fun _ => inl [];
       os_ReadFile := fun _ => inl "";
       json_Unmarshal := fun _ => inl [];
       os_Open := fun _ => inl [];
       db_Exec := fun _ _ _ => None;
       rangeOrder := fun schema _ => map_to_list schema |} in
  run WithHandleError env sampleFlags
  = (Exit 2, printed "error on get table info: mssql: login failed" initial).
Proof.
  intros env.
  apply (table_info_failure_ends_run WithHandleError env sampleFlags
           "001_users.csv" "users" Csv (errorString "mssql: login failed") initial).
  - exists [], []. repeat split.
  - reflexivity.
  - right. left. split; [now exists [idColumn] | reflexivity].
Defined.

Lemma processFile_described (variant : Variant) (env : Env) (dirPath fileName : string)
    (tableName : string) (ext : Format) (schema : Schema) (isTableIdentity : bool)
    (computeColumns : list string) (w : World) :
  described env fileName tableName ext schema isTableIdentity computeColumns ->
  processFile variant env dirPath fileName w =
    (allRecords ← readRecords variant env (dirPath +:+ "/" +:+ fileName) ext;
     forEach (processRecord variant env tableName schema isTableIdentity
                computeColumns ext) allRecords) w.
Proof.
  intros (Hname & Hschema & Hid & Hcc). unfold processFile.
  rewrite Hname.
  erewrite bind_ok by apply liftGo_Return. cbv beta iota zeta.
  rewrite Hschema, Hid, Hcc.
  erewrite bind_ok by apply checked_ok.
  erewrite bind_ok.
  2:{ erewrite bind_ok by apply liftGo_Return. apply checked_ok. }
  erewrite bind_ok by apply checked_ok.
  reflexivity.
Qed.

(** X11: a file that cannot be read ends the run at its directory entry,
    with a status that tells the step: a JSON file that cannot be read gives
    6, a CSV file that cannot be opened 7, a CSV file whose first line cannot
    be read (an empty file gives the error EOF) 4; under [must] each is a
    panic with the error.  Nothing is executed for the file. *)
Theorem unreadable_file_ends_run (variant : Variant) (env : Env) (flags : Flags)
    (fileName tableName : string) (ext : Format) (schema : Schema)
    (isTableIdentity : bool) (computeColumns : list string)
    (errorCode : AppExitCode) (err : error) (w : World) :
  reachesFile variant env flags fileName w ->
  described env fileName tableName ext schema isTableIdentity computeColumns ->
  (ext = Json /\ errorCode = ReadFileErrorCode /\
   os_ReadFile env (dirPath flags +:+ "/" +:+ fileName) = inr err) \/
  (ext = Csv /\ errorCode = OpenFileErrorCode /\
   os_Open env (dirPath flags +:+ "/" +:+ fileName) = inr err) \/
  (ext = Csv /\ errorCode = UnmarshalErrorCode /\
   exists r, os_Open env (dirPath flags +:+ "/" +:+ fileName) = inl r /\
             (Read r).1 = inr err) ->
  run variant env flags = failure variant errorCode err w.
Proof.
  intros Hreach Hdesc Hfail.
  rewrite (pair_eta (failure variant errorCode err w)).
  apply (reachesFile_stops variant env flags fileName w); [assumption|].
  rewrite (processFile_described _ _ _ _ _ _ _ _ _ _ Hdesc).
  erewrite bind_halt; [reflexivity|].
  unfold readRecords.
  destruct Hfail as [(-> & -> & Hread) | [(-> & -> & Hopen) | (-> & -> & r & Hopen & Hfirst)]].
  - rewrite Hread. erewrite bind_halt by apply checked_failure. reflexivity.
  - rewrite Hopen. erewrite bind_halt by apply checked_failure. reflexivity.
  - rewrite Hopen. erewrite bind_ok by apply checked_ok.
    destruct (Read r) as [res r'] eqn:E. simpl in Hfirst. subst res. cbv iota beta.
    erewrite bind_halt by apply checked_failure. reflexivity.
Qed.

Lemma unreadable_file_ends_run_witness :
  let env := sampleEnv ["001_users.csv"] [idColumn; nameColumn] 0 [] [] [] in
  run WithHandleError env sampleFlags
  = (Exit 4, printed "error on unmarshal inserted data: EOF" initial).
Proof.
  intros env.
  apply (unreadable_file_ends_run WithHandleError env sampleFlags "001_users.csv" "users"
           Csv (schemaOf [idColumn; nameColumn]) false [] UnmarshalErrorCode EOF initial).
  - exists [], []. repeat split.
  - repeat split.
  - right. right. split; [reflexivity | split; [reflexivity|]].
    exists []. split; reflexivity.
Defined.

(** X12: a JSON file whose contents cannot be decoded makes the run panic
    with the decoding error under both variants: under [handleError] too the
    process does not exit with status 4, and nothing is printed. *)
Theorem malformed_json_panics (variant : Variant) (env : Env) (flags : Flags)
    (fileName tableName : string) (schema : Schema)
    (isTableIdentity : bool) (computeColumns : list string)
    (data : string) (err : error) (w : World) :
  reachesFile variant env flags fileName w ->
  described env fileName tableName Json schema isTableIdentity computeColumns ->
  os_ReadFile env (dirPath flags +:+ "/" +:+ fileName) = inl data ->
  json_Unmarshal env data = inr err ->
  run variant env flags = (Panic (PanicError err), w).
Proof.
  intros Hreach Hdesc Hread Hjson.
  apply (reachesFile_stops variant env flags fileName w); [assumption|].
  rewrite (processFile_described _ _ _ _ _ _ _ _ _ _ Hdesc).
  erewrite bind_halt; [reflexivity|].
  unfold readRecords. rewrite Hread.
  erewrite bind_ok by apply checked_ok. now rewrite Hjson.
Qed.

Lemma malformed_json_panics_witness :
  let env :=
    {| sqlx_Open := fun _ => None;
       os_ReadDir := fun _ => inl ["001_users.json"];
       selectColumns := fun _ => inl [idColumn];
       selectIdentityCount := fun _ => inl [0%Z];
       selectComputedColumns := fun _ => inl [];
       os_ReadFile := fun _ => inl "[{";
       json_Unmarshal := fun _ => inr (errorString "unexpected end of JSON input");
       os_Open := fun _ => inl [];
       db_Exec := fun _ _ _ => None;
       rangeOrder := fun schema _ => map_to_list schema |} in
  run WithHandleError env sampleFlags
  = (Panic (PanicError (errorString "unexpected end of JSON input")), initial).
Proof.
  intros env.
  apply (malformed_json_panics WithHandleError env sampleFlags "001_users.json" "users"
           (schemaOf [idColumn]) false [] "[{"
           (errorString "unexpected end of JSON input") initial).
  - exists [], []. repeat split.
  - repeat split.
  - reflexivity.
  - reflexivity.
Defined.

(** X13: a CSV file is read to its end before any of its lines is
    inserted: when a line after the header cannot be read, the run panics
    with that error under both variants and none of the lines before it has
    been executed. *)
Theorem csv_error_discards_file (variant : Variant) (env : Env) (flags : Flags)
    (fileName tableName : string) (schema : Schema)
    (isTableIdentity : bool) (computeColumns : list string)
    (headers : list string) (rows : list (list string)) (msg : string)
    (rest : Reader) (w : World) :
  reachesFile variant env flags fileName w ->
  described env fileName tableName Csv schema isTableIdentity computeColumns ->
  os_Open env (dirPath flags +:+ "/" +:+ fileName)
    = inl (inl headers :: (inl <$> rows) ++ inr (errorString msg) :: rest) ->
  Forall (fun record => List.length record = List.length headers) rows ->
  run variant env flags = (Panic (PanicError (errorString msg)), w) /\
  executed (run variant env flags).2 = executed w.
Proof.
  intros Hreach Hdesc Hopen Hrows.
  assert (Hrun : run variant env flags = (Panic (PanicError (errorString msg)), w)).
  { apply (reachesFile_stops variant env flags fileName w); [assumption|].
    rewrite (processFile_described _ _ _ _ _ _ _ _ _ _ Hdesc).
    erewrite bind_halt; [reflexivity|].
    unfold readRecords. rewrite Hopen.
    erewrite bind_ok by apply checked_ok. unfold Read. cbv iota beta.
    erewrite bind_ok by apply checked_ok.
    rewrite csvLoop_error; [reflexivity|].
    eapply Forall_impl; [exact Hrows|]. simpl. intros record ->. lia. }
  now rewrite Hrun.
Qed.

Lemma csv_error_discards_file_witness :
  let env := sampleEnv ["001_users.csv"] [idColumn; nameColumn] 0 []
               [inl ["id"; "name"]; inl ["1"; "Alice"];
                inr (errorString "record on line 3: wrong number of fields")] [] in
  run WithHandleError env sampleFlags
  = (Panic (PanicError (errorString "record on line 3: wrong number of fields")),
     initial).
Proof.
  intros env.
  destruct (csv_error_discards_file WithHandleError env sampleFlags "001_users.csv"
              "users" (schemaOf [idColumn; nameColumn]) false []
              ["id"; "name"] [["1"; "Alice"]]
              "record on line 3: wrong number of fields" [] initial) as [Hrun _].
  - exists [], []. repeat split.
  - repeat split.
  - reflexivity.
  - repeat constructor.
  - exact Hrun.
Defined.

(** X14: when the database rejects the statement of a record, the run ends
    there: under [handleError] with exit status 3 after printing "error on
    data insert in table: <error>", under [must] with a panic.  The
    statements of the records before it stay executed: no later record undoes
    them. *)
Theorem rejected_statement_ends_run (variant : Variant) (env : Env) (flags : Flags)
    (tableName : string) (ext : Format) (schema : Schema) (isTableIdentity : bool)
    (computeColumns : list string) (records : Record_) (w : World)
    (query : string) (values : list any) (err : error) :
  reaches variant env flags tableName ext schema isTableIdentity computeColumns records w ->
  statementFor tableName isTableIdentity computeColumns ext records
    (rangeOrder env schema (ranges w)) = Some (query, values) ->
  db_Exec env (executed w) query values = Some err ->
  run variant env flags
  = failure variant InsertDataErrorCode err
      (ran query values (printed ("query  " +:+ query) (ranged w))) /\
  executed (run variant env flags).2 = executed w ++ [(query, values)].
Proof.
  intros Hreach Hstmt Hexec.
  assert (Hrun : run variant env flags
                 = failure variant InsertDataErrorCode err
                     (ran query values (printed ("query  " +:+ query) (ranged w)))).
  { rewrite (pair_eta (failure _ _ _ _)).
    apply (reaches_stops _ _ _ _ _ _ _ _ _ _ _ _ Hreach).
    unfold statementFor in Hstmt. unfold processRecord.
    erewrite bind_ok by reflexivity.
    destruct (project computeColumns ext records (rangeOrder env schema (ranges w)))
      as [columns vals|]; [|discriminate].
    destruct columns as [|c columns]; [discriminate|].
    change (List.length (c :: columns) =? 0)%nat with false in *. cbv iota zeta in *.
    injection Hstmt as <- <-.
    erewrite bind_ok by reflexivity.
    erewrite bind_ok by reflexivity.
    change (executed (printed ?l (ranged w))) with (executed w).
    rewrite Hexec. destruct variant; reflexivity. }
  split; [exact Hrun|]. rewrite Hrun. destruct variant; reflexivity.
Qed.

Lemma rejected_statement_ends_run_witness :
  let env :=
    {| sqlx_Open := fun _ => None;
       os_ReadDir := fun _ => inl ["001_users.csv"];
       selectColumns := fun _ => inl [idColumn; nameColumn];
       selectIdentityCount := fun _ => inl [0%Z];
       selectComputedColumns := fun _ => inl [];
       os_ReadFile := fun _ => inl "";
       json_Unmarshal := fun _ => inl [];
       os_Open := fun _ => inl [inl ["id"; "name"]; inl ["1"; "Alice"]; inl ["1"; "Bob"]];
       db_Exec := fun done _ _ =>
                    match done with
                    | [] => None
                    | _ => Some (errorString "Violation of PRIMARY KEY constraint")
                    end;
       rangeOrder := fun schema _ => map_to_list schema |} in
  let query := "INSERT INTO users ([id], [name]) VALUES (@p1, @p2);" in
  run WithHandleError env sampleFlags
  = (Exit 3,
     {| stdout := ["query  " +:+ query; "query  " +:+ query;
                   "error on data insert in table: Violation of PRIMARY KEY constraint"];
        stderr := [];
        executed := [(query, [AnyInt 1; AnyString "Alice"]);
                     (query, [AnyInt 1; AnyString "Bob"])];
        ranges := 2 |}).
Proof.
  intros env query.
  set (w := ran query [AnyInt 1; AnyString "Alice"]
              (printed ("query  " +:+ query) (ranged initial))).
  destruct (rejected_statement_ends_run WithHandleError env sampleFlags "users" Csv
              (schemaOf [idColumn; nameColumn]) false []
              ({[ "id" := AnyInt 1; "name" := AnyString "Bob" ]} : Record_) w
              query [AnyInt 1; AnyString "Bob"]
              (errorString "Violation of PRIMARY KEY constraint")) as [Hrun _].
  - exists [], "001_users.csv", [],
      [ {[ "id" := AnyInt 1; "name" := AnyString "Alice" ]} ], [], initial.
    repeat split; vm_compute; reflexivity.
  - vm_compute. reflexivity.
  - reflexivity.
  - exact Hrun.
Defined.

(** ** Runs that go to the end *)

Lemma statementFor_Permutation (tableName : string) (isTableIdentity : bool)
    (computeColumns : list string) (ext : Format) (records : Record_)
    (e1 e2 : list (string * ColumnSchema)) :
  e1 ≡ₚ e2 ->
  is_Some (statementFor tableName isTableIdentity computeColumns ext records e1) ->
  is_Some (statementFor tableName isTableIdentity computeColumns ext records e2).
Proof.
  intros Hperm [s Hs]. unfold statementFor in *.
  destruct (project computeColumns ext records e1) as [c1 v1|] eqn:E1; [|discriminate].
  apply project_Projected_inv in E1 as (Hok & -> & ->).
  pose proof (rejects_Permutation _ _ _ _ _ Hperm Hok) as Hok2.
  unfold project. rewrite projectLoop_Projected by assumption. simpl.
  rewrite length_fmap in *.
  rewrite <- (appended_Permutation computeColumns ext records e1 e2 Hperm).
  destruct (List.length (appended computeColumns ext records e1) =? 0)%nat;
    [discriminate | eauto].
Qed.

Lemma statementFor_inv (tableName : string) (isTableIdentity : bool)
    (computeColumns : list string) (ext : Format) (records : Record_)
    (entries : list (string * ColumnSchema)) (statement : string * list any) :
  statementFor tableName isTableIdentity computeColumns ext records entries
    = Some statement ->
  exists columns,
    project computeColumns ext records entries = Projected columns statement.2 /\
    columns <> [] /\
    statement.1 = buildQuery tableName isTableIdentity columns.
Proof.
  unfold statementFor.
  destruct (project computeColumns ext records entries) as [columns values|];
    [|discriminate].
  destruct columns as [|c columns]; [discriminate|].
  change (List.length (c :: columns) =? 0)%nat with false. cbv iota.
  intros [= <-]. exists (c :: columns). now repeat split.
Qed.

Lemma forEach_processRecord_all (variant : Variant) (env : Env) (tableName : string)
    (schema : Schema) (isTableIdentity : bool) (computeColumns : list string)
    (ext : Format) (allRecords : list Record_) :
  permutes env ->
  (forall done query values, db_Exec env done query values = None) ->
  (forall records,
      records ∈ allRecords ->
      is_Some (statementFor tableName isTableIdentity computeColumns ext records
                 (map_to_list schema))) ->
  forall w : World,
  exists statements : list (string * list any),
    forEach (processRecord variant env tableName schema isTableIdentity
               computeColumns ext) allRecords w
    = (inl tt,
       {| stdout := stdout w ++ ((fun s => "query  " +:+ s.1) <$> statements);
          stderr := stderr w;
          executed := executed w ++ statements;
          ranges := ranges w + List.length allRecords |}) /\
    Forall2 (fun records statement =>
               exists entries,
                 entries ≡ₚ map_to_list schema /\
                 statementFor tableName isTableIdentity computeColumns ext records entries
                 = Some statement)
            allRecords statements.
Proof.
  intros Hperm Hexec.
  induction allRecords as [|records rest IH]; intros Hall w.
  - exists []. split; [|constructor].
    simpl. rewrite !app_nil_r, Nat.add_0_r. now destruct w.
  - assert (Hsome : is_Some (statementFor tableName isTableIdentity computeColumns ext
                               records (rangeOrder env schema (ranges w)))).
    { apply (statementFor_Permutation _ _ _ _ _ (map_to_list schema));
        [symmetry; apply Hperm | apply Hall; left]. }
    destruct Hsome as [statement Hstatement].
    destruct (statementFor_inv _ _ _ _ _ _ _ Hstatement) as (columns & Hproj & Hne & Hq).
    pose proof (processRecord_insert variant env tableName schema isTableIdentity
                  computeColumns ext records w columns statement.2 Hproj Hne
                  (Hexec _ _ _)) as Hstep.
    rewrite <- Hq in Hstep.
    destruct (IH (fun r Hr => Hall r (list_elem_of_further _ _ _ Hr))
                (ran statement.1 statement.2
                   (printed ("query  " +:+ statement.1) (ranged w))))
      as (statements & Hrest & Hforall).
    exists (statement :: statements). split.
    + simpl forEach. erewrite bind_ok by exact Hstep. rewrite Hrest.
      f_equal. simpl. rewrite <- !app_assoc. simpl.
      destruct statement as [q v]. simpl. f_equal. lia.
    + constructor; [|assumption].
      exists (rangeOrder env schema (ranges w)). split; [apply Hperm | assumption].
Qed.

(** X15: when the database accepts every statement and every record of a
    file has a statement (no required column missing, at least one value to
    insert), the loop over the records goes to its end: one statement per
    record is executed, in the order of the records, each printed before it is
    executed, and nothing is logged. *)
Theorem records_all_inserted (variant : Variant) (env : Env) (tableName : string)
    (schema : Schema) (isTableIdentity : bool) (computeColumns : list string)
    (ext : Format) (allRecords : list Record_) :
  permutes env ->
  (forall done query values, db_Exec env done query values = None) ->
  (forall records,
      records ∈ allRecords ->
      is_Some (statementFor tableName isTableIdentity computeColumns ext records
                 (map_to_list schema))) ->
  forall w : World,
  exists statements : list (string * list any),
    forEach (processRecord variant env tableName schema isTableIdentity
               computeColumns ext) allRecords w
    = (inl tt,
       {| stdout := stdout w ++ ((fun s => "query  " +:+ s.1) <$> statements);
          stderr := stderr w;
          executed := executed w ++ statements;
          ranges := ranges w + List.length allRecords |}) /\
    Forall2 (fun records statement =>
               exists entries,
                 entries ≡ₚ map_to_list schema /\
                 statementFor tableName isTableIdentity computeColumns ext records entries
                 = Some statement)
            allRecords statements.
Proof. exact (forEach_processRecord_all variant env tableName schema isTableIdentity
               computeColumns ext allRecords). Qed.

Lemma records_all_inserted_witness :
  let env := sampleEnv ["001_users.csv"] [idColumn; nameColumn] 0 [] [] [] in
  let allRecords : list Record_ :=
    [ {[ "id" := AnyInt 1; "name" := AnyString "Alice" ]}; {[ "id" := AnyInt 2 ]} ] in
  exists statements : list (string * list any),
    forEach (processRecord WithMust env "users" (schemaOf [idColumn; nameColumn])
               false [] Csv) allRecords initial
    = (inl tt,
       {| stdout := (fun s => "query  " +:+ s.1) <$> statements;
          stderr := [];
          executed := statements;
          ranges := 2 |}) /\
    List.length statements = 2.
Proof.
  intros env allRecords.
  destruct (records_all_inserted WithMust env "users" (schemaOf [idColumn; nameColumn])
              false [] Csv allRecords) with (w := initial)
    as (statements & Hrun & Hall).
  - intros schema n. reflexivity.
  - reflexivity.
  - intros records Hin.
    repeat (apply elem_of_cons in Hin as [-> | Hin]);
      [vm_compute; eauto | vm_compute; eauto | inversion Hin].
  - exists statements. split; [exact Hrun|].
    apply Forall2_length in Hall. now rewrite <- Hall.
Defined.

Lemma project_all_continue (computeColumns : list string) (ext : Format)
    (records : Record_) (entries : list (string * ColumnSchema)) :
  Forall (fun entry => loopBody computeColumns ext records entry.1 entry.2 = Continue)
         entries ->
  project computeColumns ext records entries = Projected [] [].
Proof.
  unfold project. generalize (@nil string) (@nil any).
  induction entries as [|[col cs] rest IH]; intros columns values Hall.
  - reflexivity.
  - inversion Hall as [|? ? Hhead Hrest]; subst. simpl in *. rewrite Hhead.
    now apply IH.
Qed.

(** X16: when the record holds none of the columns of the table and no
    column is required (in particular when the metadata query returned no
    column at all, as for a file named after a table that does not exist),
    the run ends at that record with "No data to insert." and a normal
    return: the files and records that follow are left alone without any
    error being reported. *)
Theorem foreign_record_ends_run (variant : Variant) (env : Env) (flags : Flags)
    (tableName : string) (ext : Format) (schema : Schema) (isTableIdentity : bool)
    (computeColumns : list string) (records : Record_) (w : World) :
  permutes env ->
  reaches variant env flags tableName ext schema isTableIdentity computeColumns records w ->
  (forall col colSchema,
      schema !! col = Some colSchema ->
      records !! col = None /\
      (IsNullable colSchema = "YES" \/ Valid (ColumnDefault colSchema) = true)) ->
  run variant env flags = (MainReturn, printed "No data to insert." (ranged w)).
Proof.
  intros Hperm Hreach Hforeign.
  apply (reaches_stops _ _ _ _ _ _ _ _ _ _ _ _ Hreach).
  apply (processRecord_empty _ _ _ _ _ _ _ _ _ []).
  apply project_all_continue, Forall_forall. intros [col cs] Hin. simpl.
  apply (visit_lookup schema) in Hin; [|apply Hperm].
  destruct (Hforeign col cs Hin) as [Hnone Hopt].
  apply required_false in Hopt. unfold loopBody. now rewrite Hnone, Hopt.
Qed.

Lemma foreign_record_ends_run_witness :
  let env := sampleEnv ["001_user.json"; "002_orders.json"] [] 0 [] []
               [ {[ "id" := AnyFloat64 float64_1 ]} ] in
  run WithHandleError env sampleFlags
  = (MainReturn,
     {| stdout := ["No data to insert."]; stderr := []; executed := []; ranges := 1 |}).
Proof.
  intros env.
  apply (foreign_record_ends_run WithHandleError env sampleFlags "user" Json ∅ false []
           ({[ "id" := AnyFloat64 float64_1 ]} : Record_) initial).
  - intros schema n. reflexivity.
  - exists [], "001_user.json", ["002_orders.json"], [], [], initial.
    repeat split; vm_compute; reflexivity.
  - intros col cs Hcol. rewrite lookup_empty in Hcol. discriminate.
Defined.

Lemma processFiles_all (variant : Variant) (env : Env) (dirPath : string)
    (recordsOf : string -> list Record_) (files : list string) :
  permutes env ->
  (forall done query values, db_Exec env done query values = None) ->
  Forall (fun fileName =>
            exists tableName ext schema isTableIdentity computeColumns,
              described env fileName tableName ext schema isTableIdentity computeColumns /\
              (forall w, readRecords variant env (dirPath +:+ "/" +:+ fileName) ext w
                         = (inl (recordsOf fileName), w)) /\
              forall records,
                records ∈ recordsOf fileName ->
                is_Some (statementFor tableName isTableIdentity computeColumns ext
                           records (map_to_list schema)))
         files ->
  forall w : World,
  exists w' : World,
    processFiles variant env dirPath files w = (inl tt, w') /\
    stderr w' = stderr w /\
    List.length (executed w')
    = List.length (executed w) + sum_list ((fun f => List.length (recordsOf f)) <$> files) /\
    List.length (stdout w')
    = List.length (stdout w) + sum_list ((fun f => List.length (recordsOf f)) <$> files).
Proof.
  intros Hperm Hexec. unfold processFiles.
  induction files as [|fileName files IH]; intros Hall w.
  - exists w. simpl. repeat split; lia.
  - inversion Hall as [|? ? Hfile Hrest]; subst.
    destruct Hfile as (t & ext & schema & isId & cc & Hdesc & Hread & Hrecords).
    destruct Hdesc as (Hname & Hschema & Hid & Hcc).
    destruct (forEach_processRecord_all variant env t schema isId cc ext
                (recordsOf fileName) Hperm Hexec Hrecords w)
      as (statements & Hloop & Hforall).
    apply Forall2_length in Hforall.
    set (w1 := {| stdout := stdout w ++ ((fun s => "query  " +:+ s.1) <$> statements);
                  stderr := stderr w;
                  executed := executed w ++ statements;
                  ranges := ranges w + List.length (recordsOf fileName) |}) in *.
    destruct (IH Hrest w1) as (w' & Hfiles & Herr & Hexe & Hout).
    exists w'. split; [| split; [| split]].
    + simpl forEach. erewrite bind_ok; [exact Hfiles|].
      rewrite (processFile_loaded variant env dirPath fileName t ext schema isId cc
                 (recordsOf fileName) w) by auto.
      exact Hloop.
    + rewrite Herr. reflexivity.
    + rewrite Hexe, fmap_cons. unfold w1. cbn [executed sum_list sum_list_with].
      rewrite length_app. unfold id. lia.
    + rewrite Hout, fmap_cons. unfold w1. cbn [stdout sum_list sum_list_with].
      rewrite length_app, length_fmap. unfold id. lia.
Qed.

(** X17: when the connection and the directory open, every entry is
    described and read, the database accepts every statement and every record
    has one, the run goes to its end: one statement is executed and one line
    printed per record, then "Upload done"; nothing is logged; the process
    returns from [main] under [must] and exits with status 0 under
    [handleError].  An empty directory gives "Upload done" alone. *)
Theorem run_upload_done_all (variant : Variant) (env : Env) (flags : Flags)
    (recordsOf : string -> list Record_) (files : list string) :
  permutes env ->
  (forall done query values, db_Exec env done query values = None) ->
  sqlx_Open env (connectionString flags) = None ->
  os_ReadDir env (dirPath flags) = inl files ->
  Forall (fun fileName =>
            exists tableName ext schema isTableIdentity computeColumns,
              described env fileName tableName ext schema isTableIdentity computeColumns /\
              (forall w, readRecords variant env (dirPath flags +:+ "/" +:+ fileName) ext w
                         = (inl (recordsOf fileName), w)) /\
              forall records,
                records ∈ recordsOf fileName ->
                is_Some (statementFor tableName isTableIdentity computeColumns ext
                           records (map_to_list schema)))
         files ->
  exists w : World,
    run variant env flags = (finished variant, printed "Upload done" w) /\
    stderr w = [] /\
    List.length (executed w) = sum_list ((fun f => List.length (recordsOf f)) <$> files) /\
    List.length (stdout w) = sum_list ((fun f => List.length (recordsOf f)) <$> files) /\
    (files = [] -> w = initial).
Proof.
  intros Hperm Hexec Hopen Hdir Hfiles.
  destruct (processFiles_all variant env (dirPath flags) recordsOf files Hperm Hexec
              Hfiles initial) as (w & Hloop & Herr & Hexe & Hout).
  exists w. split; [| split; [exact Herr | split; [exact Hexe | split; [exact Hout|]]]].
  - unfold run, main. rewrite Hopen, Hdir.
    erewrite bind_ok by (destruct variant; reflexivity).
    erewrite bind_ok by apply checked_ok.
    erewrite bind_ok by exact Hloop.
    erewrite bind_ok by reflexivity.
    destruct variant; reflexivity.
  - intros ->. unfold processFiles in Hloop. simpl in Hloop. now injection Hloop.
Qed.

Lemma run_upload_done_all_witness :
  let env := sampleEnv ["001_users.csv"; "002_users.csv"] [idColumn; nameColumn] 0 []
               [inl ["id"; "name"]; inl ["1"; "Alice"]; inl ["2"; "Bob"]] [] in
  exists w : World,
    run WithHandleError env sampleFlags = (Exit 0, printed "Upload done" w) /\
    stderr w = [] /\
    List.length (executed w) = 4.
Proof.
  intros env.
  destruct (run_upload_done_all WithHandleError env sampleFlags
              (fun _ => [ {[ "id" := AnyInt 1; "name" := AnyString "Alice" ]};
                          {[ "id" := AnyInt 2; "name" := AnyString "Bob" ]} ])
              ["001_users.csv"; "002_users.csv"])
    as (w & Hrun & Herr & Hexe & _).
  - intros schema n. reflexivity.
  - reflexivity.
  - reflexivity.
  - reflexivity.
  - repeat constructor;
      (exists "users", Csv, (schemaOf [idColumn; nameColumn]), false, [];
       split; [repeat split | split; [intros w; vm_compute; reflexivity |]];
       intros records Hin;
       repeat (apply elem_of_cons in Hin as [-> | Hin]);
       [vm_compute; eauto | vm_compute; eauto | inversion Hin]).
  - exists w. split; [exact Hrun | split; [exact Herr | exact Hexe]].
Defined.

(** ** What the exit status and the log tell *)

Lemma disciplined_quiet (variant : Variant) {A} (m : M A) :
  (forall w, stderr (m w).2 = stderr w) ->
  (forall w code, (m w).1 = inr (Exit code) ->
                  variant = WithHandleError /\ (code = 0 \/ 2 <= code <= 7)%Z) ->
  disciplined variant m.
Proof. intros Hlog Hexit w. left. split; [apply Hlog | apply Hexit]. Qed.

Lemma disciplined_mret (variant : Variant) {A} (a : A) : disciplined variant (mret a).
Proof. apply disciplined_quiet; [reflexivity | discriminate]. Qed.

Lemma disciplined_halt_Panic (variant : Variant) {A} (p : PanicValue) :
  disciplined variant (@halt A (Panic p)).
Proof. apply disciplined_quiet; [reflexivity | discriminate]. Qed.

Lemma disciplined_halt_MainReturn (variant : Variant) {A} : disciplined variant (@halt A MainReturn).
Proof. apply disciplined_quiet; [reflexivity | discriminate]. Qed.

Lemma disciplined_Println (variant : Variant) (line : string) : disciplined variant (Println line).
Proof. apply disciplined_quiet; [reflexivity | discriminate]. Qed.

Lemma disciplined_rangeSchema (variant : Variant) (env : Env) (schema : Schema) :
  disciplined variant (rangeSchema env schema).
Proof. apply disciplined_quiet; [reflexivity | discriminate]. Qed.

Lemma disciplined_Exec (variant : Variant) (env : Env) (query : string) (values : list any) :
  disciplined variant (Exec env query values).
Proof. apply disciplined_quiet; [reflexivity | discriminate]. Qed.

Lemma disciplined_liftGo (variant : Variant) {A} (x : Go A) : disciplined variant (liftGo x).
Proof.
  destruct x; [apply disciplined_mret | apply disciplined_halt_Panic].
Qed.

Lemma disciplined_try (variant : Variant) (err : option error) : disciplined variant (try err).
Proof.
  destruct err; [apply disciplined_halt_Panic | apply disciplined_mret].
Qed.

Lemma disciplined_Fatalf (variant : Variant) {A} (col : string) (origin : Format) :
  disciplined variant (@Fatalf A (requiredFieldMessage col origin)).
Proof. intros w. right. split; [reflexivity | now exists col, origin]. Qed.

Lemma disciplined_bind (variant : Variant) {A B} (m : M A) (k : A -> M B) :
  disciplined variant m ->
  (forall a, disciplined variant (k a)) ->
  disciplined variant (m ≫= k).
Proof.
  intros Hm Hk w. unfold mbind, M_bind.
  specialize (Hm w). destruct (m w) as [[a | h] w1]; simpl in Hm.
  - destruct Hm as [[Hlog _] | [Hexit _]]; [|discriminate].
    destruct (Hk a w1) as [[Hlog' Hexit'] | (Hexit' & col & origin & Hlog')].
    + left. split; [congruence | assumption].
    + right. split; [assumption|]. exists col, origin. congruence.
  - simpl. destruct Hm as [[Hlog Hexit] | (Hexit & col & origin & Hlog)].
    + left. split; [assumption|]. intros code [= ->]. now apply Hexit.
    + right. injection Hexit as ->. split; [reflexivity | now exists col, origin].
Qed.

Lemma disciplined_forEach (variant : Variant) {A} (body : A -> M unit) (xs : list A) :
  (forall x, disciplined variant (body x)) ->
  disciplined variant (forEach body xs).
Proof.
  intros Hbody. induction xs as [|x xs IH]; simpl.
  - apply disciplined_mret.
  - apply disciplined_bind; [apply Hbody | intros _; exact IH].
Qed.

Lemma disciplined_checked (variant : Variant) {T} (errorCode : AppExitCode) (res : T + error) :
  (errorCode = 0 \/ 2 <= errorCode <= 7)%Z ->
  disciplined variant (checked variant errorCode res).
Proof.
  intros Hcode. unfold checked. destruct variant.
  - destruct res; [apply disciplined_mret | apply disciplined_halt_Panic].
  - destruct res as [v | err]; [apply disciplined_mret|].
    apply disciplined_quiet; [reflexivity|].
    intros w code [= <-]. now split.
Qed.

Lemma disciplined_processRecord (variant : Variant) (env : Env) (tableName : string) (schema : Schema)
    (isTableIdentity : bool) (computeColumns : list string) (ext : Format)
    (records : Record_) :
  disciplined variant
    (processRecord variant env tableName schema isTableIdentity computeColumns ext records).
Proof.
  unfold processRecord. apply disciplined_bind; [apply disciplined_rangeSchema|].
  intros entries.
  destruct (project computeColumns ext records entries) as [columns values | col origin];
    [|apply disciplined_Fatalf].
  destruct (List.length columns =? 0)%nat.
  - apply disciplined_bind; [apply disciplined_Println|].
    intros _. apply disciplined_halt_MainReturn.
  - cbv zeta. apply disciplined_bind; [apply disciplined_Println|].
    intros _. apply disciplined_bind; [apply disciplined_Exec|].
    intros res. destruct variant; [apply disciplined_try|].
    destruct res as [err|]; [|apply disciplined_mret].
    apply disciplined_quiet; [reflexivity|].
    intros w code [= <-]. split; [reflexivity | right; unfold InsertDataErrorCode; lia].
Qed.

Lemma disciplined_readRecords (variant : Variant) (env : Env) (filePath : string) (ext : Format) :
  disciplined variant (readRecords variant env filePath ext).
Proof.
  unfold readRecords. destruct ext.
  - apply disciplined_bind.
    + apply disciplined_checked. right. unfold ReadFileErrorCode. lia.
    + intros data. destruct (json_Unmarshal env data);
        [apply disciplined_mret | apply disciplined_halt_Panic].
  - apply disciplined_bind.
    + apply disciplined_checked. right. unfold OpenFileErrorCode. lia.
    + intros r. destruct (Read r) as [res r']. apply disciplined_bind.
      * apply disciplined_checked. right. unfold UnmarshalErrorCode. lia.
      * intros headers. apply disciplined_liftGo.
Qed.

Lemma disciplined_processFile (variant : Variant) (env : Env) (dirPath fileName : string) :
  disciplined variant (processFile variant env dirPath fileName).
Proof.
  assert (Hinfo : (TableInfoErrorCode = 0 \/ 2 <= TableInfoErrorCode <= 7)%Z)
    by (right; unfold TableInfoErrorCode; lia).
  unfold processFile. apply disciplined_bind; [apply disciplined_liftGo|].
  intros [tableName ext].
  apply disciplined_bind; [now apply disciplined_checked|]. intros schema.
  apply disciplined_bind.
  { apply disciplined_bind; [apply disciplined_liftGo|].
    intros res. now apply disciplined_checked. }
  intros isTableIdentity.
  apply disciplined_bind; [now apply disciplined_checked|]. intros computeColumns.
  apply disciplined_bind; [apply disciplined_readRecords|]. intros allRecords.
  apply disciplined_forEach. intros records. apply disciplined_processRecord.
Qed.

Lemma disciplined_after_open (variant : Variant) (env : Env) (flags : Flags) :
  disciplined variant
    (files ← checked variant ReadDirErrorCode (os_ReadDir env (dirPath flags));
     processFiles variant env (dirPath flags) files;;
     Println "Upload done";;
     match variant with
     | WithMust => mret tt
     | WithHandleError => halt (Exit SuccessCode)
     end).
Proof.
  apply disciplined_bind.
  { apply disciplined_checked. right. unfold ReadDirErrorCode. lia. }
  intros files. apply disciplined_bind.
  { apply disciplined_forEach. intros fileName. apply disciplined_processFile. }
  intros _. apply disciplined_bind; [apply disciplined_Println|].
  intros _. destruct variant; [apply disciplined_mret|].
  apply disciplined_quiet; [reflexivity|].
  intros w code [= <-]. split; [reflexivity | now left].
Qed.

(** Once [flag.Parse()] has returned: the run logs nothing, or logs one
    required-field message and exits with status 1; an exit status is one of
    the eight codes; under [must] there is no exit but that status 1; under
    [handleError] status 1 with an empty log is a connection that could not
    be opened. *)
Lemma run_exit_status (variant : Variant) (env : Env) (flags : Flags) :
  let h := (run variant env flags).1 in
  let w := (run variant env flags).2 in
  (stderr w = [] \/
   (h = Exit 1 /\ exists col origin, stderr w = [requiredFieldMessage col origin])) /\
  (forall code, h = Exit code -> (0 <= code <= 7)%Z) /\
  (variant = WithMust -> forall code, h = Exit code -> code = 1%Z /\ stderr w <> []) /\
  (variant = WithHandleError -> h = Exit 1 -> stderr w = [] ->
   exists err, sqlx_Open env (connectionString flags) = Some err) /\
  (forall err, sqlx_Open env (connectionString flags) = Some err ->
   stderr w = [] /\ executed w = [] /\
   h = match variant with
       | WithMust => Panic (PanicError err)
       | WithHandleError => Exit 1
       end).
Proof.
  intros h w. subst h w. unfold run, main.
  destruct (sqlx_Open env (connectionString flags)) as [err|] eqn:Hopen.
  - assert (Hcode : forall code, Exit ConnectErrorCode = Exit code -> (0 <= code <= 7)%Z)
      by (intros code [= <-]; unfold ConnectErrorCode; lia).
    destruct variant; simpl; (split; [now left|]);
      (split; [first [discriminate | exact Hcode]|]);
      (split; [discriminate|]); (split; [eauto|]); now intros ? [= <-].
  - pose proof (disciplined_after_open variant env flags initial) as Hd.
    erewrite bind_ok by (destruct variant; reflexivity).
    set (rest := (files ← checked variant ReadDirErrorCode (os_ReadDir env (dirPath flags));
                  processFiles variant env (dirPath flags) files;;
                  Println "Upload done";;
                  match variant with
                  | WithMust => mret tt
                  | WithHandleError => halt (Exit SuccessCode)
                  end)) in *.
    destruct (rest initial) as [[[] | h] w] eqn:E; simpl in *.
    + destruct Hd as [[Hlog _] | [Hexit _]]; [|discriminate].
      split; [now left|]. do 3 (split; [discriminate|]). discriminate.
    + destruct Hd as [[Hlog Hexit] | (Hexit & col & origin & Hlog)].
      * split; [now left|]. split; [| split; [| split]].
        -- intros code ->. destruct (Hexit code eq_refl) as [_ Hc]. lia.
        -- intros -> code ->. destruct (Hexit code eq_refl) as [Hv _]. discriminate.
        -- intros _ ->. destruct (Hexit 1%Z eq_refl) as [_ Hc]. lia.
        -- discriminate.
      * injection Hexit as ->. split; [right; split; [reflexivity | now exists col, origin]|].
        split; [| split; [| split]].
        -- intros code [= <-]. lia.
        -- intros _ code [= <-]. split; [reflexivity|]. rewrite Hlog. discriminate.
        -- intros _ _ Hempty. rewrite Hlog in Hempty. discriminate.
        -- discriminate.
Qed.

(** X18: whatever the command line and the surroundings, the program
    writes nothing of its own to the standard error; or it logs exactly one
    required-field message with [log.Fatalf], which exits with status 1; or
    [flag.Parse()] exits with status 0 (help) or 2 (bad flag) after the
    output of the flag set, nothing being printed or executed before.  Every
    call of [os.Exit] has a status between 0 and 7.  Under [must] the only
    calls of [os.Exit] are the one of [log.Fatalf] and the ones of
    [flag.Parse()]; every other failure is a panic.  Under [handleError] an
    exit with status 1 and an empty log means that the flags were parsed and
    the connection could not be opened: status 1 alone does not tell a
    missing required field from a failed connection. *)
Theorem exit_status_meaning (variant : Variant) (env : Env) (program : string)
    (arguments : list string) :
  let h := (command variant env program arguments).1 in
  let w := (command variant env program arguments).2 in
  (stderr w = [] \/
   (h = Exit 1 /\ exists col origin, stderr w = [requiredFieldMessage col origin]) \/
   (exists err, flag.Parse flag.defaults arguments = inr err /\
                h = Exit (parseExit err) /\
                stderr w = parseOutput variant program err /\
                stdout w = [] /\ executed w = [])) /\
  (forall code, h = Exit code -> (0 <= code <= 7)%Z) /\
  (variant = WithMust -> forall code, h = Exit code ->
   (code = 1%Z /\ exists col origin, stderr w = [requiredFieldMessage col origin]) \/
   ((code = 0 \/ code = 2)%Z /\
    exists err, flag.Parse flag.defaults arguments = inr err)) /\
  (variant = WithHandleError -> h = Exit 1 -> stderr w = [] ->
   exists flags err, flag.Parse flag.defaults arguments = inl flags /\
                     sqlx_Open env (connectionString flags) = Some err) /\
  (forall flags err,
      flag.Parse flag.defaults arguments = inl flags ->
      sqlx_Open env (connectionString flags) = Some err ->
      stderr w = [] /\ executed w = [] /\
      h = match variant with
          | WithMust => Panic (PanicError err)
          | WithHandleError => Exit 1
          end).
Proof.
  intros h w. subst h w. unfold command.
  destruct (flag.Parse flag.defaults arguments) as [flags | err] eqn:Hparse.
  - destruct (run_exit_status variant env flags) as (Hlog & Hcode & Hmust & Hconn & Hopen).
    split; [| split; [exact Hcode | split; [| split]]].
    + destruct Hlog as [Hlog | Hlog]; [now left | right; now left].
    + intros Hv code Hexit. left.
      destruct (Hmust Hv code Hexit) as [-> Hne]. split; [reflexivity|].
      destruct Hlog as [Hlog | (_ & col & origin & Hlog)]; [contradiction|].
      now exists col, origin.
    + intros Hv Hexit Hempty. destruct (Hconn Hv Hexit Hempty) as [err Herr].
      now exists flags, err.
    + intros flags' err [= <-]. apply Hopen.
  - simpl. split; [| split; [| split; [| split]]].
    + right. right. exists err. repeat split.
    + intros code [= <-]. destruct err; simpl; lia.
    + intros _ code [= <-]. right. split; [destruct err; simpl; lia | now exists err].
    + intros _ Hexit. destruct err; discriminate.
    + discriminate.
Qed.

Lemma exit_status_meaning_witness :
  (command WithHandleError
     (sampleEnv ["001_users.csv"] [idColumn] 0 [] [] []) "uptomssql" ["-x"]).1 = Exit 2 /\
  (command WithMust
     (sampleEnv ["001_users.csv"] [idColumn] 0 [] [] []) "uptomssql" ["-x"]).1 = Exit 2.
Proof.
  split.
  - destruct (exit_status_meaning WithHandleError
                (sampleEnv ["001_users.csv"] [idColumn] 0 [] [] []) "uptomssql" ["-x"])
      as ([Hlog | [[Hexit _] | (err & [= <-] & Hexit & _)]] & _);
      [discriminate Hlog | discriminate Hexit | exact Hexit].
  - destruct (exit_status_meaning WithMust
                (sampleEnv ["001_users.csv"] [idColumn] 0 [] [] []) "uptomssql" ["-x"])
      as ([Hlog | [[Hexit _] | (err & [= <-] & Hexit & _)]] & _);
      [discriminate Hlog | discriminate Hexit | exact Hexit].
Defined.
